(** * ElementView: the collapsible XML tree viewer

    A shallow embedding of the Preact application (the [App], [XmlView],
    [XmlViewer], [XmlTree] and [XmlLeaf] components together with the helpers
    [limitContent] and [stripNamespace]) and the properties of its tree-state
    model: path addressing, the collapse map and its bulk updates, the
    display helpers and the load/failure transitions of the application
    state. *)

From Stdlib Require Import DecimalNat.
From Stdlib Require Ascii String.
From stdpp Require Import gmap strings list fin_maps.

(** ** JavaScript strings

    A JavaScript string is a finite sequence of UTF-16 code units.  It is
    modelled as the list of its code units; [js] embeds an ASCII literal. *)

Abbreviation DOMString := (list N).

Definition js (s : string) : DOMString :=
  Ascii.N_of_ascii <$> String.list_ascii_of_string s.

(** [WhiteSpace] and [LineTerminator] code points of ECMAScript, the
    characters removed by [String.prototype.trim]. *)
Definition isWhiteSpace (c : N) : bool :=
  ((c =? 9) || (c =? 10) || (c =? 11) || (c =? 12) || (c =? 13) || (c =? 32)
   || (c =? 160) || (c =? 5760) || ((8192 <=? c) && (c <=? 8202))
   || (c =? 8232) || (c =? 8233) || (c =? 8239) || (c =? 8287)
   || (c =? 12288) || (c =? 65279))%N.

Fixpoint trimStart (s : DOMString) : DOMString :=
  match s with
  | [] => []
  | c :: s' => if isWhiteSpace c then trimStart s' else s
  end.

Definition trimEnd (s : DOMString) : DOMString :=
  reverse (trimStart (reverse s)).

(** [content.trim()] *)
Definition trim (s : DOMString) : DOMString := trimEnd (trimStart s).

(** [s.includes(sep)] for a one-character separator. *)
Definition includes (s : DOMString) (sep : N) : bool :=
  existsb (N.eqb sep) s.

(** [s.split(sep)] for a one-character separator: the segments between
    the occurrences of [sep]; the empty string splits into one empty
    segment. *)
Fixpoint split (s : DOMString) (sep : N) : list DOMString :=
  match s with
  | [] => [[]]
  | c :: s' =>
      if (c =? sep)%N then [] :: split s' sep
      else match split s' sep with
           | seg :: rest => (c :: seg) :: rest
           | [] => [[c]]
           end
  end.

(** [s.slice(0, n)] *)
Definition slice0 (s : DOMString) (n : nat) : DOMString := take n s.

(** The decimal digits of a [Decimal.uint], most significant first. *)
Fixpoint digits (d : Decimal.uint) : DOMString :=
  match d with
  | Decimal.Nil => []
  | Decimal.D0 d => 48%N :: digits d
  | Decimal.D1 d => 49%N :: digits d
  | Decimal.D2 d => 50%N :: digits d
  | Decimal.D3 d => 51%N :: digits d
  | Decimal.D4 d => 52%N :: digits d
  | Decimal.D5 d => 53%N :: digits d
  | Decimal.D6 d => 54%N :: digits d
  | Decimal.D7 d => 55%N :: digits d
  | Decimal.D8 d => 56%N :: digits d
  | Decimal.D9 d => 57%N :: digits d
  end.

(** The string a template literal produces for an array index [i]: its
    decimal notation without leading zeros (array indices are below 2^32,
    far from the numbers JavaScript prints with an exponent). *)
Definition toString (i : nat) : DOMString := digits (Nat.to_uint i).

Definition isDigit (c : N) : bool := ((48 <=? c) && (c <=? 57))%N.

(** ** The parsed document

    Of a DOM [Element] the viewer reads [nodeName], [textContent]
    (typed [string | null]) and the element children in document order. *)

Unset Elimination Schemes.
Inductive Element : Type :=
  mkElement (nodeName : DOMString) (textContent : option DOMString)
            (children : list Element).
Set Elimination Schemes.

Definition nodeName (el : Element) : DOMString :=
  match el with mkElement n _ _ => n end.
Definition textContent (el : Element) : option DOMString :=
  match el with mkElement _ t _ => t end.
Definition children (el : Element) : list Element :=
  match el with mkElement _ _ cs => cs end.

(** ** Paths and the collapse map

    A [Record<string, boolean>] is modelled by the finite map of its own
    properties.  The keys the application reads and writes are generated
    paths, which start with the root token and so are never the name of a
    property inherited from [Object.prototype]. *)

Abbreviation Path := (list N).
Abbreviation CollapseMap := (gmap (list N) bool).

(** The root token ['0'] passed to every traversal and to [XmlViewer]. *)
Definition rootPath : Path := js "0".

(** The template literal [`${path}.${i}`]. *)
Definition childPath (path : Path) (i : nat) : Path :=
  path ++ js "." ++ toString i.

(** The traversal of [generateDefaultCollapsedMap]: assign the entry of
    [path] in the shared [map] object, then visit the children in order. *)
Fixpoint traverse (el : Element) (path : Path) (depth : nat)
    (map : CollapseMap) : CollapseMap :=
  match el with
  | mkElement _ _ cs =>
      (fix forEach (cs : list Element) (i : nat) (map : CollapseMap) :=
         match cs with
         | [] => map
         | child :: cs' =>
             forEach cs' (S i) (traverse child (childPath path i) (S depth) map)
         end) cs 0 (<[path := bool_decide (0 < depth)]> map)
  end.

Definition generateDefaultCollapsedMap (root : Element) : CollapseMap :=
  traverse root rootPath 0 ∅.

(** The traversal inside [expandAll]. *)
Fixpoint traverse_expand (el : Element) (path : Path)
    (map : CollapseMap) : CollapseMap :=
  match el with
  | mkElement _ _ cs =>
      (fix forEach (cs : list Element) (i : nat) (map : CollapseMap) :=
         match cs with
         | [] => map
         | child :: cs' =>
             forEach cs' (S i) (traverse_expand child (childPath path i) map)
         end) cs 0 (<[path := false]> map)
  end.

(** The traversal inside [collapseAll]. *)
Fixpoint traverse_collapse (el : Element) (path : Path)
    (map : CollapseMap) : CollapseMap :=
  match el with
  | mkElement _ _ cs =>
      (fix forEach (cs : list Element) (i : nat) (map : CollapseMap) :=
         match cs with
         | [] => map
         | child :: cs' =>
             forEach cs' (S i) (traverse_collapse child (childPath path i) map)
         end) cs 0 (<[path := true]> map)
  end.

(** The map handed to [setCollapsedMap] by [expandAll] and [collapseAll]. *)
Definition expandAll (xmlElement : Element) : CollapseMap :=
  traverse_expand xmlElement rootPath ∅.

Definition collapseAll (xmlElement : Element) : CollapseMap :=
  traverse_collapse xmlElement rootPath ∅.

(** [collapsedMap[path] ?? (depth > 0)] *)
Definition isCollapsed (collapsedMap : CollapseMap) (path : Path)
    (depth : nat) : bool :=
  match collapsedMap !! path with
  | Some b => b
  | None => bool_decide (0 < depth)
  end.

(** The object literal [{...collapsedMap, [path]: !collapsed}] built by
    [toggle]. *)
Definition toggle (collapsedMap : CollapseMap) (path : Path)
    (collapsed : bool) : CollapseMap :=
  <[path := negb collapsed]> collapsedMap.

(** ** The nodes in visiting order

    The depth-first enumeration performed by the traversals (and by the
    renderer when every subtree is expanded): each node with the path and
    the depth it is visited at. *)

Fixpoint enumerate (el : Element) (path : Path) (depth : nat)
    : list (Path * nat * Element) :=
  match el with
  | mkElement _ _ cs =>
      (path, depth, el) ::
      (fix forEach (cs : list Element) (i : nat) :=
         match cs with
         | [] => []
         | child :: cs' =>
             enumerate child (childPath path i) (S depth) ++ forEach cs' (S i)
         end) cs 0
  end.

Fixpoint enumerate_children (cs : list Element) (path : Path) (depth : nat)
    (i : nat) : list (Path * nat * Element) :=
  match cs with
  | [] => []
  | child :: cs' =>
      enumerate child (childPath path i) (S depth)
      ++ enumerate_children cs' path depth (S i)
  end.

Definition paths (visits : list (Path * nat * Element)) : list Path :=
  (λ v, v.1.1) <$> visits.

(** The sequence of assignments [map[path] = assign depth] made along an
    enumeration. *)
Definition writes (assign : nat → bool) (visits : list (Path * nat * Element))
    (map : CollapseMap) : CollapseMap :=
  foldl (λ m v, <[v.1.1 := assign v.1.2]> m) map visits.

Definition isLeaf (el : Element) : bool :=
  match children el with [] => true | _ => false end.

(** ** Display helpers *)

(** [limitContent]: [!content] holds for [null] and for the empty string,
    and the empty string is returned for both. *)
Definition limitContent (content : option DOMString) : DOMString :=
  let max := 80 in
  match content with
  | None => []
  | Some [] => []
  | Some content =>
      let content := trim content in
      if bool_decide (max < length content)
      then slice0 content max ++ js "..."
      else content
  end.

(** [stripNamespace]: indexing the array returned by [split] yields
    [undefined] out of range, modelled by [None]. *)
Definition stripNamespace (tagName : DOMString) : option DOMString :=
  if includes tagName 58%N then split tagName 58%N !! 1
  else Some tagName.

(** ** The rendered tree

    What [XmlViewer] produces: an [XmlLeaf] line (tag name and limited
    content) for an element without children, otherwise an [XmlTree] header
    with the path its click handler toggles, the resolved collapsed state
    and, when expanded, the rendered children. *)

Unset Elimination Schemes.
Inductive VNode : Type :=
  | XmlLeaf (name : option DOMString) (content : DOMString)
  | XmlTree (name : option DOMString) (path : Path) (collapsed : bool)
            (kids : list VNode).
Set Elimination Schemes.

Fixpoint XmlViewer (node : Element) (depth : nat) (path : Path)
    (collapsedMap : CollapseMap) : VNode :=
  match node with
  | mkElement name text [] => XmlLeaf (stripNamespace name) (limitContent text)
  | mkElement name _ cs =>
      let collapsed := isCollapsed collapsedMap path depth in
      XmlTree (stripNamespace name) path collapsed
        (if collapsed then []
         else (fix map (cs : list Element) (index : nat) :=
                 match cs with
                 | [] => []
                 | child :: cs' =>
                     XmlViewer child (S depth) (childPath path index) collapsedMap
                     :: map cs' (S index)
                 end) cs 0)
  end.

Fixpoint XmlViewer_children (cs : list Element) (depth : nat) (path : Path)
    (collapsedMap : CollapseMap) (index : nat) : list VNode :=
  match cs with
  | [] => []
  | child :: cs' =>
      XmlViewer child (S depth) (childPath path index) collapsedMap
      :: XmlViewer_children cs' depth path collapsedMap (S index)
  end.

(** The paths the click handlers of a rendered tree toggle, from top to
    bottom. *)
Fixpoint header_paths (v : VNode) : list Path :=
  match v with
  | XmlLeaf _ _ => []
  | XmlTree _ path _ kids =>
      path :: (fix all (kids : list VNode) :=
                 match kids with
                 | [] => []
                 | k :: kids' => header_paths k ++ all kids'
                 end) kids
  end.

(** ** Application state and its transitions *)

Record AppState : Type := mkAppState {
  xmlElement : option Element;
  isDragging : bool;
  error : option DOMString;
  collapsedMap : CollapseMap
}.

(** The initial values given to [useState]. *)
Definition initialState : AppState :=
  {| xmlElement := None; isDragging := false; error := None;
     collapsedMap := ∅ |}.

Definition setXmlElement (v : option Element) (st : AppState) : AppState :=
  {| xmlElement := v; isDragging := isDragging st; error := error st;
     collapsedMap := collapsedMap st |}.
Definition setError (v : option DOMString) (st : AppState) : AppState :=
  {| xmlElement := xmlElement st; isDragging := isDragging st; error := v;
     collapsedMap := collapsedMap st |}.
Definition setCollapsedMap (v : CollapseMap) (st : AppState) : AppState :=
  {| xmlElement := xmlElement st; isDragging := isDragging st;
     error := error st; collapsedMap := v |}.

(** [xmlDoc.getElementsByTagName(name)]: the elements of the document, in
    tree order, whose qualified name is [name].  A parsed document is
    represented by its [documentElement]. *)
Definition getElementsByTagName (xmlDoc : Element) (name : DOMString)
    : list Element :=
  filter (λ el, nodeName el = name) ((λ v, v.2) <$> enumerate xmlDoc rootPath 0).

(** The [reader.onload] callback of [handleFile], given the document
    returned by [parser.parseFromString]. *)
Definition onload (xmlDoc : Element) (st : AppState) : AppState :=
  let parserError := getElementsByTagName xmlDoc (js "parsererror") in
  let st := setError None st in
  if bool_decide (0 < length parserError) then
    setError (Some (js "Not a valid XML")) (setXmlElement None st)
  else
    let root := xmlDoc in
    setCollapsedMap (generateDefaultCollapsedMap root)
      (setXmlElement (Some root) st).

Record File : Type := mkFile { file_type : DOMString; file_text : DOMString }.

Definition handleFile (parseFromString : DOMString → Element)
    (file : option File) (st : AppState) : AppState :=
  match file with
  | None => st
  | Some f =>
      if bool_decide (file_type f ≠ js "text/xml") then st
      else onload (parseFromString (file_text f)) st
  end.

(** What [App] renders below the drop zone: the error line, shown when
    [error] is truthy, and the tree, shown when [xmlElement] is. *)
Definition render_error (st : AppState) : option DOMString :=
  match error st with
  | Some (c :: msg) => Some (c :: msg)
  | _ => None
  end.

Definition render_tree (st : AppState) : option VNode :=
  match xmlElement st with
  | Some root => Some (XmlViewer root 0 rootPath (collapsedMap st))
  | None => None
  end.

(** The click handlers reachable from a rendered [XmlView]. *)
Definition click_expandAll (st : AppState) : AppState :=
  match xmlElement st with
  | Some root => setCollapsedMap (expandAll root) st
  | None => st
  end.

Definition click_collapseAll (st : AppState) : AppState :=
  match xmlElement st with
  | Some root => setCollapsedMap (collapseAll root) st
  | None => st
  end.

(** A click on the header of the [XmlTree] rendered at [path] and [depth]. *)
Definition click_toggle (path : Path) (depth : nat) (st : AppState)
    : AppState :=
  match xmlElement st with
  | Some _ =>
      let collapsed := isCollapsed (collapsedMap st) path depth in
      setCollapsedMap (toggle (collapsedMap st) path collapsed) st
  | None => st
  end.

Definition setIsDragging (v : bool) (st : AppState) : AppState :=
  {| xmlElement := xmlElement st; isDragging := v; error := error st;
     collapsedMap := collapsedMap st |}.

(** The events the application reacts to: the completion of a file read
    with the document the parser returned, the two bulk buttons, a click on
    a tree header, and the drag notifications. *)
Inductive Event : Type :=
  | Loaded (xmlDoc : Element)
  | ExpandAll
  | CollapseAll
  | Toggle (path : Path) (depth : nat)
  | DragEnter
  | DragLeave.

Definition step (st : AppState) (ev : Event) : AppState :=
  match ev with
  | Loaded xmlDoc => onload xmlDoc st
  | ExpandAll => click_expandAll st
  | CollapseAll => click_collapseAll st
  | Toggle path depth => click_toggle path depth st
  | DragEnter => setIsDragging true st
  | DragLeave => setIsDragging false st
  end.

Definition run (st : AppState) (evs : list Event) : AppState :=
  foldl step st evs.

(** Everything the rendered page depends on. *)
Definition observe (st : AppState) : bool * option DOMString * option VNode :=
  (isDragging st, render_error st, render_tree st).

(** Two states that differ at most in a collapse map that belongs to no
    loaded document. *)
Definition same_view (st1 st2 : AppState) : Prop :=
  xmlElement st1 = xmlElement st2
  ∧ isDragging st1 = isDragging st2
  ∧ error st1 = error st2
  ∧ (xmlElement st1 = None ∨ collapsedMap st1 = collapsedMap st2).

(** ** Objects and references

    [toggle] receives the current map by reference.  A store of map
    objects makes sharing explicit: the object literal allocates a fresh
    object, into which the spread copies the properties of the old one. *)

Abbreviation Store := (gmap positive (gmap (list N) bool)).

Definition alloc (σ : Store) (obj : CollapseMap) : positive * Store :=
  let l := fresh (dom σ) in (l, <[l := obj]> σ).

Definition toggle_ref (σ : Store) (collapsedMap : positive) (path : Path)
    (collapsed : bool) : option (positive * Store) :=
  match σ !! collapsedMap with
  | Some obj => Some (alloc σ (toggle obj path collapsed))
  | None => None
  end.

(** ** The specification's reading of the helpers

    Definitions written after the wording of the specification, to be
    compared with the code. *)

(** The substring after the first occurrence of [sep] (the whole string
    when [sep] does not occur). *)
Fixpoint after_first (s : DOMString) (sep : N) : DOMString :=
  match s with
  | [] => []
  | c :: s' => if (c =? sep)%N then s' else after_first s' sep
  end.

(** The substring before the first occurrence of [sep]. *)
Fixpoint before_first (s : DOMString) (sep : N) : DOMString :=
  match s with
  | [] => []
  | c :: s' => if (c =? sep)%N then [] else c :: before_first s' sep
  end.

Definition spec_stripNamespace (tagName : DOMString) : DOMString :=
  if includes tagName 58%N then after_first tagName 58%N else tagName.

(** The document [<root><a>1</a><b><c>2</c></b></root>]. *)
Definition scenario : Element :=
  mkElement (js "root") (Some (js "12"))
    [ mkElement (js "a") (Some (js "1")) [];
      mkElement (js "b") (Some (js "2"))
        [ mkElement (js "c") (Some (js "2")) [] ] ].

(** The document a parser returns for malformed input: it contains a
    [parsererror] element. *)
Definition malformed : Element :=
  mkElement (js "parsererror") (Some (js "error on line 1")) [].

(** ** The remaining handlers of [App] *)

(** [handleDrop]: the first dropped file, if any, is handed to
    [handleFile]; [files] is the list [e.dataTransfer?.files], empty when
    absent. *)
Definition handleDrop (parseFromString : DOMString → Element)
    (files : list File) (st : AppState) : AppState :=
  let st := setIsDragging false st in
  match head files with
  | Some file => handleFile parseFromString (Some file) st
  | None => st
  end.

(** [handleFileChange]: the same for the file input. *)
Definition handleFileChange (parseFromString : DOMString → Element)
    (files : list File) (st : AppState) : AppState :=
  match head files with
  | Some file => handleFile parseFromString (Some file) st
  | None => st
  end.

Definition handleDragEnter (st : AppState) : AppState := setIsDragging true st.
Definition handleDragLeave (st : AppState) : AppState := setIsDragging false st.

(** The states the application can be in: from the initial one, by
    completed loads, the bulk buttons, drag notifications and clicks on the
    header of an element of the loaded document that has children. *)
Inductive reachable : AppState → Prop :=
  | reachable_initial : reachable initialState
  | reachable_onload st xmlDoc : reachable st → reachable (onload xmlDoc st)
  | reachable_expandAll st : reachable st → reachable (click_expandAll st)
  | reachable_collapseAll st : reachable st → reachable (click_collapseAll st)
  | reachable_toggle st root path depth node :
      reachable st → xmlElement st = Some root →
      (path, depth, node) ∈ enumerate root rootPath 0 →
      isLeaf node = false →
      reachable (click_toggle path depth st)
  | reachable_drag st b : reachable st → reachable (setIsDragging b st).

(** The tag names a rendered tree displays, from top to bottom. *)
Fixpoint labels (v : VNode) : list (option DOMString) :=
  match v with
  | XmlLeaf name _ => [name]
  | XmlTree name _ _ kids =>
      name :: (fix all (kids : list VNode) :=
                 match kids with
                 | [] => []
                 | k :: kids' => labels k ++ all kids'
                 end) kids
  end.

Fixpoint labels_all (kids : list VNode) : list (option DOMString) :=
  match kids with
  | [] => []
  | k :: kids' => labels k ++ labels_all kids'
  end.

(** The displayed name of an element. *)
Definition label (el : Element) : option DOMString :=
  stripNamespace (nodeName el).

(** The number of delimiters ['.'] in a path. *)
Definition delimiters (p : Path) : nat :=
  length (filter (λ c, c = 46%N) p).

(** ** The first version of the viewer

    [src/index.tsx] keeps no collapse map: its [App] holds the document,
    the drag flag and the error only. *)

Record LegacyState : Type := mkLegacyState {
  legacy_xmlElement : option Element;
  legacy_isDragging : bool;
  legacy_error : option DOMString
}.

(** Its [reader.onload]: the document is cleared before the outcome of
    the parse is looked at. *)
Definition legacy_onload (xmlDoc : Element) (st : LegacyState) : LegacyState :=
  let parserError := getElementsByTagName xmlDoc (js "parsererror") in
  let st := {| legacy_xmlElement := legacy_xmlElement st;
               legacy_isDragging := legacy_isDragging st;
               legacy_error := None |} in
  let st := {| legacy_xmlElement := None;
               legacy_isDragging := legacy_isDragging st;
               legacy_error := legacy_error st |} in
  if bool_decide (0 < length parserError) then
    {| legacy_xmlElement := legacy_xmlElement st;
       legacy_isDragging := legacy_isDragging st;
       legacy_error := Some (js "Not a valid XML") |}
  else
    {| legacy_xmlElement := Some xmlDoc;
       legacy_isDragging := legacy_isDragging st;
       legacy_error := legacy_error st |}.

(** A document whose [parsererror] element is not the root. *)
Definition nested_error : Element :=
  mkElement (js "html") None
    [ mkElement (js "body") None
        [ mkElement (js "parsererror") (Some (js "error on line 1")) [] ] ].

(** ** Shape of the generated paths *)

(** A suffix is [dotted] when it is empty or starts with the delimiter. *)
Definition dotted (s : DOMString) : Prop :=
  match s with
  | [] => True
  | c :: _ => c = 46%N
  end.

(** [q] addresses the node at [p] or one of its descendants. *)
Definition extends (p q : Path) : Prop := ∃ s, q = p ++ s ∧ dotted s.

(** * Properties *)

(** ** Induction over a document tree *)

Section Element_induction.
Variable P : Element → Prop.
Hypothesis Hnode : ∀ n t cs, Forall P cs → P (mkElement n t cs).

Fixpoint Element_ind (el : Element) : P el :=
  match el with
  | mkElement n t cs =>
      Hnode n t cs
        ((fix all (cs : list Element) : Forall P cs :=
            match cs with
            | [] => List.Forall_nil P
            | c :: cs' => List.Forall_cons P c cs' (Element_ind c) (all cs')
            end) cs)
  end.
End Element_induction.

(** ** The traversals as sequences of assignments *)

Lemma enumerate_unfold el path depth :
  enumerate el path depth
  = (path, depth, el) :: enumerate_children (children el) path depth 0.
Proof.
  destruct el as [n t cs]; simpl. f_equal.
  generalize 0. induction cs as [|c cs IH]; intros i; simpl; [done|].
  by rewrite IH.
Qed.

Lemma writes_app assign v1 v2 m :
  writes assign (v1 ++ v2) m = writes assign v2 (writes assign v1 m).
Proof. unfold writes. by rewrite foldl_app. Qed.

Lemma writes_cons assign p d n vs m :
  writes assign ((p, d, n) :: vs) m = writes assign vs (<[p := assign d]> m).
Proof. done. Qed.

Ltac traversal_as_writes :=
  let el := fresh "el" in
  intros el; induction el as [n t cs IH] using Element_ind;
  intros path depth m; rewrite enumerate_unfold, writes_cons; simpl;
  match goal with
  | |- ?forEach cs 0 ?m0 = writes ?assign _ ?m0 =>
      cut (∀ i m', forEach cs i m'
                   = writes assign (enumerate_children cs path depth i) m');
      [ intros Hcut; apply Hcut | ]
  end;
  induction IH as [|c cs Hc _ IHcs]; intros i m'; simpl; [done|];
  rewrite writes_app, IHcs; f_equal; apply Hc.

Lemma traverse_writes el path depth m :
  traverse el path depth m
  = writes (λ d, bool_decide (0 < d)) (enumerate el path depth) m.
Proof. revert el path depth m. traversal_as_writes. Qed.

Lemma traverse_expand_writes el path depth m :
  traverse_expand el path m = writes (λ _, false) (enumerate el path depth) m.
Proof. revert el path depth m. traversal_as_writes. Qed.

Lemma traverse_collapse_writes el path depth m :
  traverse_collapse el path m = writes (λ _, true) (enumerate el path depth) m.
Proof. revert el path depth m. traversal_as_writes. Qed.

(** ** Decimal indices *)

Lemma digits_isDigit d : Forall (λ c, isDigit c = true) (digits d).
Proof. induction d; simpl; constructor; done. Qed.

Lemma digits_inj d1 d2 : digits d1 = digits d2 → d1 = d2.
Proof.
  revert d2. induction d1; intros []; simpl; intros H; try done;
    injection H as H; f_equal; auto.
Qed.

Lemma toString_inj i j : toString i = toString j → i = j.
Proof. intros H%digits_inj. by apply DecimalNat.Unsigned.to_uint_inj. Qed.

Lemma toString_isDigit i : Forall (λ c, isDigit c = true) (toString i).
Proof. apply digits_isDigit. Qed.

(** Two digit strings followed by dotted suffixes coincide only when the
    digit strings and the suffixes do. *)
Lemma digits_split a b s1 s2 :
  Forall (λ c, isDigit c = true) a → Forall (λ c, isDigit c = true) b →
  dotted s1 → dotted s2 → a ++ s1 = b ++ s2 → a = b ∧ s1 = s2.
Proof.
  intros Ha. revert b. induction Ha as [|x a Hx _ IH]; intros b Hb D1 D2 E.
  - destruct Hb as [|y b Hy _]; [done|]. simpl in E. subst s1.
    simpl in D1. by subst y.
  - destruct Hb as [|y b Hy Hb]; simpl in E.
    + subst s2. simpl in D2. by subst x.
    + injection E as -> E. destruct (IH b Hb D1 D2 E) as [-> ->]. done.
Qed.

(** ** Paths of the enumeration *)

Lemma extends_refl p : extends p p.
Proof. exists []. by rewrite app_nil_r. Qed.

Lemma extends_childPath p i q : extends (childPath p i) q → extends p q.
Proof.
  intros (s & -> & _). exists (js "." ++ toString i ++ s).
  unfold childPath. by rewrite <- !app_assoc.
Qed.

Lemma extends_childPath_ne p i q : extends (childPath p i) q → q ≠ p.
Proof.
  intros (s & -> & _) E. unfold childPath in E.
  rewrite <- !app_assoc in E. rewrite <- (app_nil_r p) in E at 2.
  by apply app_inv_head in E.
Qed.

Lemma extends_childPath_inj p i j q :
  extends (childPath p i) q → extends (childPath p j) q → i = j.
Proof.
  intros (s1 & -> & D1) (s2 & E & D2). unfold childPath in E.
  rewrite <- !app_assoc in E. apply app_inv_head in E. simpl in E.
  injection E as E. apply toString_inj.
  by eapply (digits_split _ _ s1 s2); eauto using toString_isDigit.
Qed.

Lemma elem_of_enumerate_children cs path depth i0 v :
  v ∈ enumerate_children cs path depth i0 ↔
  ∃ k c, cs !! k = Some c ∧ v ∈ enumerate c (childPath path (i0 + k)) (S depth).
Proof.
  revert i0. induction cs as [|c cs IH]; intros i0; simpl.
  - split; [by intros ?%elem_of_nil | by intros (? & ? & ? & _)].
  - rewrite elem_of_app, IH. split.
    + intros [H | (k & c' & Hk & H)].
      * exists 0, c. by rewrite Nat.add_0_r.
      * exists (S k), c'. by rewrite Nat.add_succ_r.
    + intros ([|k] & c' & Hk & H); simpl in Hk.
      * left. injection Hk as ->. by rewrite Nat.add_0_r in H.
      * right. exists k, c'. by rewrite Nat.add_succ_r in H.
Qed.

Lemma enumerate_head el path depth :
  (path, depth, el) ∈ enumerate el path depth.
Proof. rewrite enumerate_unfold. apply elem_of_cons. by left. Qed.

Lemma enumerate_extends el path depth v :
  v ∈ enumerate el path depth → extends path v.1.1.
Proof.
  revert path depth. induction el as [n t cs IH] using Element_ind.
  intros path depth. rewrite enumerate_unfold. simpl.
  intros [-> | H]%elem_of_cons; [apply extends_refl|].
  apply elem_of_enumerate_children in H as (k & c & Hk & H).
  rewrite Forall_lookup in IH. eapply extends_childPath, IH; eauto.
Qed.

Lemma enumerate_children_extends cs path depth i0 v :
  v ∈ enumerate_children cs path depth i0 →
  ∃ k, extends (childPath path (i0 + k)) v.1.1.
Proof.
  intros (k & c & _ & H)%elem_of_enumerate_children.
  exists k. by eapply enumerate_extends.
Qed.

Lemma enumerate_paths_NoDup el path depth :
  NoDup (paths (enumerate el path depth)).
Proof.
  revert path depth. induction el as [n t cs IH] using Element_ind.
  intros path depth. rewrite enumerate_unfold. unfold paths. simpl.
  apply NoDup_cons. split.
  - intros (v & E & [k Hv]%enumerate_children_extends)%list_elem_of_fmap.
    apply extends_childPath_ne in Hv. congruence.
  - generalize 0. induction IH as [|c cs Hc _ IHcs]; intros i0; simpl.
    + apply NoDup_nil. done.
    + rewrite fmap_app. apply NoDup_app. split_and!; [apply Hc| |apply IHcs].
      intros q (v & -> & Hv%enumerate_extends)%list_elem_of_fmap
               (w & E & [k Hw]%enumerate_children_extends)%list_elem_of_fmap.
      rewrite <- E in Hw.
      pose proof (extends_childPath_inj _ _ _ _ Hv Hw). lia.
Qed.

Lemma enumerate_child_closed el path0 depth0 q d m i c :
  (q, d, m) ∈ enumerate el path0 depth0 → children m !! i = Some c →
  (childPath q i, S d, c) ∈ enumerate el path0 depth0.
Proof.
  revert path0 depth0. induction el as [n t cs IH] using Element_ind.
  intros path0 depth0 Hin Hc. rewrite enumerate_unfold in *. simpl in *.
  apply elem_of_cons. right. apply elem_of_enumerate_children.
  apply elem_of_cons in Hin as [E | Hin].
  - injection E as -> -> ->. exists i, c. split; [done|]. apply enumerate_head.
  - apply elem_of_enumerate_children in Hin as (k & ck & Hk & Hin).
    exists k, ck. split; [done|].
    rewrite Forall_lookup in IH. by eapply IH.
Qed.

Lemma enumerate_parent el path0 depth0 p d n :
  (p, d, n) ∈ enumerate el path0 depth0 →
  (p, d, n) = (path0, depth0, el) ∨
  ∃ q d' m i, (q, d', m) ∈ enumerate el path0 depth0 ∧
    children m !! i = Some n ∧ p = childPath q i ∧ d = S d'.
Proof.
  revert path0 depth0. induction el as [nm t cs IH] using Element_ind.
  intros path0 depth0 Hin. rewrite enumerate_unfold in Hin. simpl in Hin.
  apply elem_of_cons in Hin as [E | Hin]; [by left | right].
  apply elem_of_enumerate_children in Hin as (k & ck & Hk & Hin).
  rewrite Forall_lookup in IH.
  destruct (IH k ck Hk _ _ Hin) as [E | (q & d' & m & i & Hq & Hm & -> & ->)].
  - injection E as -> -> ->.
    exists path0, depth0, (mkElement nm t cs), k.
    split_and!; [apply enumerate_head | done..].
  - exists q, d', m, i. split_and!; [|done..].
    rewrite enumerate_unfold. simpl. apply elem_of_cons. right.
    apply elem_of_enumerate_children. by exists k, ck.
Qed.

(** ** Paths in the rendered tree *)

Lemma XmlViewer_unfold node depth path m :
  XmlViewer node depth path m
  = match children node with
    | [] => XmlLeaf (stripNamespace (nodeName node))
              (limitContent (textContent node))
    | _ => XmlTree (stripNamespace (nodeName node)) path
             (isCollapsed m path depth)
             (if isCollapsed m path depth then []
              else XmlViewer_children (children node) depth path m 0)
    end.
Proof.
  destruct node as [n t [|c cs]]; [done|]. simpl. f_equal.
  destruct (isCollapsed m path depth); [done|]. f_equal.
  generalize 1. induction cs as [|c' cs IH]; intros i; simpl; [done|].
  by rewrite IH.
Qed.

(** The headers of a rendered tree carry paths of the enumeration, in
    enumeration order; so no two headers toggle the same key. *)
Lemma XmlViewer_header_paths_sublist node depth path m :
  header_paths (XmlViewer node depth path m)
    `sublist_of` paths (enumerate node path depth).
Proof.
  revert depth path. induction node as [n t cs IH] using Element_ind.
  intros depth path.
  assert (∀ i, header_paths (XmlTree None path false
                               (XmlViewer_children cs depth path m i))
               `sublist_of` path :: paths (enumerate_children cs path depth i))
    as Hkids.
  { intros i. simpl. apply sublist_skip. revert i.
    induction IH as [|c cs Hc _ IHcs]; intros i; simpl; [done|].
    unfold paths. rewrite fmap_app. apply sublist_app; [apply Hc | apply IHcs]. }
  rewrite XmlViewer_unfold, enumerate_unfold. simpl.
  destruct cs as [|c cs]; [apply sublist_nil_l|].
  destruct (isCollapsed m path depth).
  - apply sublist_skip, sublist_nil_l.
  - apply (Hkids 0).
Qed.

Lemma XmlViewer_header_paths_NoDup node depth path m :
  NoDup (header_paths (XmlViewer node depth path m)).
Proof.
  eapply sublist_NoDup; [apply enumerate_paths_NoDup|].
  apply XmlViewer_header_paths_sublist.
Qed.

(** ** Lookups after a sequence of assignments *)

Lemma writes_lookup_notin assign vs m p :
  p ∉ paths vs → writes assign vs m !! p = m !! p.
Proof.
  revert m. induction vs as [|[[q d] n] vs IH]; intros m Hp; [done|].
  unfold paths in Hp. simpl in Hp. apply not_elem_of_cons in Hp as [Hne Hp].
  rewrite writes_cons, IH by done. by rewrite lookup_insert_ne.
Qed.

Lemma writes_lookup_in assign vs m p d n :
  NoDup (paths vs) → (p, d, n) ∈ vs →
  writes assign vs m !! p = Some (assign d).
Proof.
  revert m. induction vs as [|[[q d'] n'] vs IH]; intros m Hnd Hin.
  - by apply elem_of_nil in Hin.
  - unfold paths in Hnd. simpl in Hnd. apply NoDup_cons in Hnd as [Hq Hnd].
    rewrite writes_cons. apply elem_of_cons in Hin as [E | Hin].
    + injection E as <- <- <-.
      rewrite writes_lookup_notin by done. apply lookup_insert_eq.
    + by apply IH.
Qed.

Lemma dom_writes assign vs m :
  dom (writes assign vs m) = list_to_set (paths vs) ∪ dom m.
Proof.
  revert m. induction vs as [|[[q d] n] vs IH]; intros m.
  - simpl. by rewrite (left_id_L ∅ (∪)).
  - rewrite writes_cons, IH, dom_insert_L. unfold paths. simpl.
    rewrite (assoc_L (∪)). f_equal. apply (comm_L (∪)).
Qed.

(** ** Path addressing *)

(** C1. In the depth-first enumeration of a loaded tree the paths are
    pairwise distinct; every enumerated node other than the root has an
    enumerated parent, one level up, whose path followed by ['.'] and the
    index of the node among the parent's children is the node's path, the
    parent's path being a proper prefix of it; and every child of an
    enumerated node is enumerated under that path.  The enumeration is the
    one of the code: the traversal of [generateDefaultCollapsedMap] assigns
    its entries along it, and the headers rendered by [XmlViewer] carry
    paths of it, in the same order. *)
Theorem path_uniqueness_and_structure (root : Element) :
  let visits := enumerate root rootPath 0 in
  NoDup (paths visits)
  ∧ (∀ p d n, (p, d, n) ∈ visits →
       (p, d, n) = (rootPath, 0, root)
       ∨ ∃ q d' m i, (q, d', m) ∈ visits ∧ children m !! i = Some n
           ∧ d = S d' ∧ p = q ++ js "." ++ toString i
           ∧ q `prefix_of` p ∧ q ≠ p)
  ∧ (∀ q d m i c, (q, d, m) ∈ visits → children m !! i = Some c →
       (q ++ js "." ++ toString i, S d, c) ∈ visits)
  ∧ generateDefaultCollapsedMap root
    = writes (λ d, bool_decide (0 < d)) visits ∅
  ∧ (∀ m, header_paths (XmlViewer root 0 rootPath m) `sublist_of` paths visits).
Proof.
  intros visits. split_and!.
  - apply enumerate_paths_NoDup.
  - intros p d n Hin.
    destruct (enumerate_parent _ _ _ _ _ _ Hin)
      as [E | (q & d' & m & i & Hq & Hm & -> & ->)]; [by left | right].
    exists q, d', m, i. split_and!; try done.
    + by eexists.
    + intros E. symmetry in E. revert E.
      apply (extends_childPath_ne q i), extends_refl.
  - intros q d m i c Hin Hc. by apply (enumerate_child_closed _ _ _ _ _ m).
  - apply traverse_writes.
  - intros m. apply XmlViewer_header_paths_sublist.
Qed.

Lemma path_uniqueness_and_structure_witness :
  (js "0.1.0", 2, mkElement (js "c") (Some (js "2")) [])
    ∈ enumerate scenario rootPath 0.
Proof.
  apply (proj1 (proj2 (proj2 (path_uniqueness_and_structure scenario)))
           (js "0.1") 1
           (mkElement (js "b") (Some (js "2"))
              [mkElement (js "c") (Some (js "2")) []]) 0).
  - apply (list_elem_of_lookup_2 _ 2). reflexivity.
  - reflexivity.
Defined.

(** ** Bulk updates and the default map *)

Lemma generateDefaultCollapsedMap_writes root :
  generateDefaultCollapsedMap root
  = writes (λ d, bool_decide (0 < d)) (enumerate root rootPath 0) ∅.
Proof. apply traverse_writes. Qed.

Lemma expandAll_writes root :
  expandAll root = writes (λ _, false) (enumerate root rootPath 0) ∅.
Proof. apply traverse_expand_writes. Qed.

Lemma collapseAll_writes root :
  collapseAll root = writes (λ _, true) (enumerate root rootPath 0) ∅.
Proof. apply traverse_collapse_writes. Qed.

Example collapseAll_scenario :
  collapseAll scenario
  = {[ js "0" := true; js "0.0" := true; js "0.1" := true;
       js "0.1.0" := true ]}.
Proof. vm_compute. reflexivity. Qed.

Example expandAll_scenario :
  expandAll scenario
  = {[ js "0" := false; js "0.0" := false; js "0.1" := false;
       js "0.1.0" := false ]}.
Proof. vm_compute. reflexivity. Qed.

Example generateDefaultCollapsedMap_scenario :
  generateDefaultCollapsedMap scenario
  = {[ js "0" := false; js "0.0" := true; js "0.1" := true;
       js "0.1.0" := true ]}.
Proof. vm_compute. reflexivity. Qed.

(** After loading the scenario document the root is shown expanded with the
    header of [b] collapsed; a click on that header reveals [c]. *)
Example scenario_loaded :
  render_tree (onload scenario initialState)
  = Some (XmlTree (Some (js "root")) (js "0") false
            [ XmlLeaf (Some (js "a")) (js "1");
              XmlTree (Some (js "b")) (js "0.1") true [] ]).
Proof. vm_compute. reflexivity. Qed.

Example scenario_click_b :
  render_tree (click_toggle (js "0.1") 1 (onload scenario initialState))
  = Some (XmlTree (Some (js "root")) (js "0") false
            [ XmlLeaf (Some (js "a")) (js "1");
              XmlTree (Some (js "b")) (js "0.1") false
                [ XmlLeaf (Some (js "c")) (js "2") ] ]).
Proof. vm_compute. reflexivity. Qed.

Lemma enumerate_depth_ge el path depth v :
  v ∈ enumerate el path depth → depth ≤ v.1.2.
Proof.
  revert path depth. induction el as [n t cs IH] using Element_ind.
  intros path depth. rewrite enumerate_unfold. simpl.
  intros [-> | H]%elem_of_cons; [done|].
  apply elem_of_enumerate_children in H as (k & c & Hk & H).
  rewrite Forall_lookup in IH. apply (IH k c Hk) in H. lia.
Qed.

Lemma enumerate_tail_depth el path depth k v :
  enumerate el path depth !! k = Some v → k ≠ 0 → depth < v.1.2.
Proof.
  rewrite enumerate_unfold. destruct k as [|k]; [done|].
  change (enumerate_children (children el) path depth 0 !! k = Some v
          → S k ≠ 0 → depth < v.1.2).
  intros H _. apply list_elem_of_lookup_2 in H.
  apply elem_of_enumerate_children in H as (i & c & _ & H).
  apply enumerate_depth_ge in H. lia.
Qed.

(** C2, as stated, fails on the scenario document: the leaves [a] (path
    ["0.0"]) and [c] (path ["0.1.0"]) are keys of the maps built by
    "Collapse all" and "Expand all". *)
Lemma setAll_leaves_are_keys :
  ¬ ((∀ p d n, (p, d, n) ∈ enumerate scenario rootPath 0 →
        isLeaf n = false → collapseAll scenario !! p = Some true)
     ∧ (∀ p d n, (p, d, n) ∈ enumerate scenario rootPath 0 →
        isLeaf n = false → expandAll scenario !! p = Some false)
     ∧ (∀ p d n, (p, d, n) ∈ enumerate scenario rootPath 0 →
        isLeaf n = true →
        collapseAll scenario !! p = None ∧ expandAll scenario !! p = None)).
Proof.
  intros (_ & _ & H).
  destruct (H (js "0.0") 1 (mkElement (js "a") (Some (js "1")) [])) as [H1 _].
  - apply (list_elem_of_lookup_2 _ 1). reflexivity.
  - reflexivity.
  - vm_compute in H1. discriminate H1.
Qed.

(** C2, amended.  "Collapse all" maps the path of every node of the tree,
    internal node or leaf, to [true], and "Expand all" maps the path of
    every node to [false]. *)
Theorem setAll_assigns_every_node (root : Element) p d n :
  (p, d, n) ∈ enumerate root rootPath 0 →
  collapseAll root !! p = Some true ∧ expandAll root !! p = Some false.
Proof.
  intros Hin. rewrite collapseAll_writes, expandAll_writes.
  split; eapply (writes_lookup_in _ _ _ p d n);
    eauto using enumerate_paths_NoDup.
Qed.

Lemma setAll_assigns_every_node_witness :
  collapseAll scenario !! js "0.1.0" = Some true
  ∧ expandAll scenario !! js "0.1.0" = Some false.
Proof.
  apply (setAll_assigns_every_node scenario (js "0.1.0") 2
           (mkElement (js "c") (Some (js "2")) [])).
  apply (list_elem_of_lookup_2 _ 3). reflexivity.
Defined.

(** C3. The default map built at load time maps the root path to [false];
    the entry of every node is [depth > 0]; and every node after the root in
    the enumeration that has children is mapped to [true]. *)
Theorem default_map_root_expanded_rest_collapsed (root : Element) :
  let visits := enumerate root rootPath 0 in
  generateDefaultCollapsedMap root !! rootPath = Some false
  ∧ (∀ p d n, (p, d, n) ∈ visits →
       generateDefaultCollapsedMap root !! p = Some (bool_decide (0 < d)))
  ∧ (∀ k p d n, visits !! k = Some (p, d, n) → k ≠ 0 → isLeaf n = false →
       generateDefaultCollapsedMap root !! p = Some true).
Proof.
  intros visits.
  assert (∀ p d n, (p, d, n) ∈ visits →
    generateDefaultCollapsedMap root !! p = Some (bool_decide (0 < d))) as Hall.
  { intros p d n Hin. rewrite generateDefaultCollapsedMap_writes.
    apply (writes_lookup_in (λ d, bool_decide (0 < d)) _ _ p d n);
      [apply enumerate_paths_NoDup | done]. }
  split_and!; [|done|].
  - apply (Hall rootPath 0 root), enumerate_head.
  - intros k p d n Hk Hne _.
    rewrite (Hall p d n) by by eapply list_elem_of_lookup_2.
    apply enumerate_tail_depth in Hk; [|done]. simpl in Hk.
    by rewrite bool_decide_eq_true_2 by lia.
Qed.

Lemma default_map_root_expanded_rest_collapsed_witness :
  generateDefaultCollapsedMap scenario !! js "0.1" = Some true.
Proof.
  apply (proj2 (proj2 (default_map_root_expanded_rest_collapsed scenario))
           2 (js "0.1") 1
           (mkElement (js "b") (Some (js "2"))
              [mkElement (js "c") (Some (js "2")) []])).
  - reflexivity.
  - lia.
  - reflexivity.
Defined.

(** C10. For one tree, [generateDefaultCollapsedMap], [expandAll] and
    [collapseAll] build maps with the same key set: the set of the paths of
    all enumerated nodes, so that every node, leaves included, has an
    entry. *)
Theorem builders_same_keys (root : Element) :
  let keys : gset (list N) := list_to_set (paths (enumerate root rootPath 0)) in
  dom (generateDefaultCollapsedMap root) = keys
  ∧ dom (expandAll root) = keys
  ∧ dom (collapseAll root) = keys
  ∧ (∀ p d n, (p, d, n) ∈ enumerate root rootPath 0 → p ∈ keys).
Proof.
  intros keys.
  rewrite generateDefaultCollapsedMap_writes, expandAll_writes,
    collapseAll_writes, !dom_writes, dom_empty_L, (right_id_L ∅ (∪)).
  split_and!; try done.
  intros p d n Hin. apply elem_of_list_to_set, list_elem_of_fmap.
  by exists (p, d, n).
Qed.

Lemma builders_same_keys_witness :
  js "0.0" ∈ (list_to_set (paths (enumerate scenario rootPath 0))
               : gset (list N)).
Proof.
  apply (proj2 (proj2 (proj2 (builders_same_keys scenario)))
           (js "0.0") 1 (mkElement (js "a") (Some (js "1")) [])).
  apply (list_elem_of_lookup_2 _ 1). reflexivity.
Defined.

(** ** Toggling one node *)

(** C4. [toggle] yields a map in which [path] maps to the negation of the
    current value and every other key is as in the input.  In the store, the
    result is a freshly allocated object: the input object, and every other
    object, is left as it was. *)
Theorem toggle_frame (σ : Store) (l : positive) (m : CollapseMap)
    (path : list N) (currentValue : bool) :
  σ !! l = Some m →
  ∃ l' σ',
    toggle_ref σ l path currentValue = Some (l', σ')
    ∧ σ' !! l' = Some (toggle m path currentValue)
    ∧ toggle m path currentValue !! path = Some (negb currentValue)
    ∧ (∀ q, q ≠ path → toggle m path currentValue !! q = m !! q)
    ∧ l' ≠ l
    ∧ σ' !! l = Some m
    ∧ (∀ k, k ≠ l' → σ' !! k = σ !! k).
Proof.
  intros Hl. unfold toggle_ref, alloc. rewrite Hl.
  set (l' := fresh (dom σ)).
  assert (l' ∉ dom σ) as Hfresh by apply is_fresh.
  assert (l' ≠ l) as Hne.
  { intros ->. apply Hfresh, elem_of_dom. by eexists. }
  exists l', (<[l' := toggle m path currentValue]> σ). split_and!.
  - done.
  - apply lookup_insert_eq.
  - apply lookup_insert_eq.
  - intros q Hq. by apply lookup_insert_ne.
  - done.
  - by rewrite lookup_insert_ne.
  - intros k Hk. by rewrite lookup_insert_ne.
Qed.

Lemma toggle_frame_witness :
  ∃ l' σ',
    toggle_ref {[ 1%positive := {[ js "0" := false; js "0.1" := true ]} ]}
      1%positive (js "0.1") true = Some (l', σ')
    ∧ σ' !! l' = Some {[ js "0" := false; js "0.1" := false ]}
    ∧ σ' !! 1%positive = Some {[ js "0" := false; js "0.1" := true ]}.
Proof.
  destruct (toggle_frame
              {[ 1%positive := {[ js "0" := false; js "0.1" := true ]} ]}
              1%positive {[ js "0" := false; js "0.1" := true ]}
              (js "0.1") true (lookup_singleton_eq _ _))
    as (l' & σ' & H1 & H2 & _ & _ & _ & H3 & _).
  exists l', σ'. split_and!; [done| |done].
  rewrite H2. vm_compute. reflexivity.
Defined.

(** C5, as stated, fails: toggling twice an empty map leaves an entry. *)
Lemma toggle_not_involutive :
  ¬ (∀ (m : CollapseMap) (p : list N) (v : bool),
       toggle (toggle m p v) p (negb v) = m).
Proof.
  intros H. specialize (H ∅ (js "0") false).
  apply (f_equal (λ m : CollapseMap, m !! js "0")) in H.
  vm_compute in H. discriminate H.
Qed.

(** C5, amended.  Toggling [p] twice, from [v] and then from [!v], yields
    the input map with [p] set to [v]; this is the input map itself exactly
    when it already holds the entry [v] for [p]. *)
Theorem toggle_twice (m : CollapseMap) (p : list N) (v : bool) :
  toggle (toggle m p v) p (negb v) = <[p := v]> m
  ∧ (toggle (toggle m p v) p (negb v) = m ↔ m !! p = Some v).
Proof.
  assert (toggle (toggle m p v) p (negb v) = <[p := v]> m) as E.
  { unfold toggle. by rewrite insert_insert_eq, negb_involutive. }
  split; [done|]. rewrite E. split.
  - intros <-. apply lookup_insert_eq.
  - apply insert_id.
Qed.

Lemma toggle_twice_witness :
  toggle (toggle {[ js "0" := false ]} (js "0") false) (js "0") (negb false)
  = {[ js "0" := false ]}.
Proof.
  apply (proj2 (toggle_twice {[ js "0" := false ]} (js "0") false)).
  reflexivity.
Defined.

(** ** Resolving the collapsed state *)

(** C8. The resolved state of [path] is the entry of the map when there is
    one, and otherwise [depth > 0]: expanded at depth 0 only.  It is the
    state [XmlViewer] renders an element with children in. *)
Theorem isCollapsed_lookup (m : CollapseMap) (path : list N) (depth : nat) :
  (∀ b, m !! path = Some b → isCollapsed m path depth = b)
  ∧ (m !! path = None → isCollapsed m path depth = bool_decide (0 < depth))
  ∧ (m !! path = None → (isCollapsed m path depth = false ↔ depth = 0))
  ∧ (∀ name text c cs,
       ∃ kids, XmlViewer (mkElement name text (c :: cs)) depth path m
               = XmlTree (stripNamespace name) path
                   (isCollapsed m path depth) kids).
Proof.
  unfold isCollapsed. split_and!.
  - by intros b ->.
  - by intros ->.
  - intros ->. rewrite bool_decide_eq_false. lia.
  - intros name text c cs. simpl. by eexists.
Qed.

Lemma isCollapsed_lookup_witness :
  isCollapsed {[ js "0.1" := false ]} (js "0.1") 1 = false
  ∧ isCollapsed ∅ (js "0.1") 1 = true.
Proof.
  split.
  - apply (proj1 (isCollapsed_lookup {[ js "0.1" := false ]} (js "0.1") 1)).
    reflexivity.
  - apply (proj1 (proj2 (isCollapsed_lookup ∅ (js "0.1") 1))).
    reflexivity.
Defined.

(** ** Namespace stripping *)

Lemma split_unfold s sep :
  split s sep
  = before_first s sep
    :: (if includes s sep then split (after_first s sep) sep else []).
Proof.
  induction s as [|c s IH]; [done|]. simpl.
  rewrite (N.eqb_sym sep c). destruct (c =? sep)%N; simpl; [done|].
  by rewrite IH.
Qed.

Lemma split_second s sep :
  split s sep !! 1
  = if includes s sep then Some (before_first (after_first s sep) sep)
    else None.
Proof.
  rewrite split_unfold. destruct (includes s sep); [|done].
  by rewrite (split_unfold (after_first s sep)).
Qed.

Lemma before_first_id s sep : includes s sep = false → before_first s sep = s.
Proof.
  induction s as [|c s IH]; [done|]. simpl. rewrite (N.eqb_sym sep c).
  destruct (c =? sep)%N; simpl; [done|]. intros H. by rewrite IH.
Qed.

(** C6, as stated, fails: of ["a:b:c"] the code displays ["b"], the second
    element of the split, and not the substring ["b:c"] after the first
    delimiter. *)
Lemma stripNamespace_second_delimiter :
  spec_stripNamespace (js "a:b:c") = js "b:c"
  ∧ stripNamespace (js "a:b:c") = Some (js "b")
  ∧ stripNamespace (js "a:b:c") ≠ Some (spec_stripNamespace (js "a:b:c")).
Proof. split_and!; [reflexivity | reflexivity | discriminate]. Qed.

(** C6, amended.  A tag name without [':'] is displayed unchanged; a tag
    name containing [':'] is displayed as the segment between the first
    delimiter and the second one, which is the whole substring after the
    first delimiter when there is no second one.  ["ns:Item"] displays as
    ["Item"], ["Item"] as ["Item"] and ["a:b:c"] as ["b"]. *)
Theorem stripNamespace_segment (tagName : DOMString) :
  stripNamespace tagName
  = Some (if includes tagName 58%N
          then before_first (after_first tagName 58%N) 58%N
          else tagName)
  ∧ (includes (after_first tagName 58%N) 58%N = false →
     stripNamespace tagName = Some (spec_stripNamespace tagName))
  ∧ stripNamespace (js "ns:Item") = Some (js "Item")
  ∧ stripNamespace (js "Item") = Some (js "Item")
  ∧ stripNamespace (js "a:b:c") = Some (js "b").
Proof.
  assert (stripNamespace tagName
          = Some (if includes tagName 58%N
                  then before_first (after_first tagName 58%N) 58%N
                  else tagName)) as E.
  { unfold stripNamespace. rewrite split_second.
    by destruct (includes tagName 58%N). }
  split_and!; try done.
  intros H. rewrite E. unfold spec_stripNamespace.
  destruct (includes tagName 58%N); [|done]. by rewrite before_first_id.
Qed.

Lemma stripNamespace_segment_witness :
  stripNamespace (js "xs:element") = Some (spec_stripNamespace (js "xs:element")).
Proof.
  apply (proj1 (proj2 (stripNamespace_segment (js "xs:element")))).
  reflexivity.
Defined.

(** ** Content limiting *)

Lemma trimStart_spec s :
  ∃ l, s = l ++ trimStart s
       ∧ Forall (λ c, isWhiteSpace c = true) l
       ∧ (∀ c, head (trimStart s) = Some c → isWhiteSpace c = false).
Proof.
  induction s as [|c s (l & E & Hl & Hh)].
  - exists []. by split_and!.
  - simpl. destruct (isWhiteSpace c) eqn:Hc.
    + exists (c :: l). split_and!; [by rewrite E at 1 | by constructor | done].
    + exists []. split_and!; [done..|]. intros ? [= <-]. done.
Qed.

Lemma trimEnd_spec s :
  ∃ r, s = trimEnd s ++ r
       ∧ Forall (λ c, isWhiteSpace c = true) r
       ∧ (∀ c, last (trimEnd s) = Some c → isWhiteSpace c = false).
Proof.
  destruct (trimStart_spec (reverse s)) as (l & E & Hl & Hh).
  exists (reverse l). unfold trimEnd. split_and!.
  - rewrite <- reverse_app, <- E. by rewrite reverse_involutive.
  - by apply Forall_reverse.
  - intros c. rewrite last_reverse. apply Hh.
Qed.

Lemma trim_spec s :
  ∃ l r, s = l ++ trim s ++ r
         ∧ Forall (λ c, isWhiteSpace c = true) l
         ∧ Forall (λ c, isWhiteSpace c = true) r
         ∧ (∀ c, head (trim s) = Some c → isWhiteSpace c = false)
         ∧ (∀ c, last (trim s) = Some c → isWhiteSpace c = false).
Proof.
  destruct (trimStart_spec s) as (l & El & Hl & Hh).
  destruct (trimEnd_spec (trimStart s)) as (r & Er & Hr & Ht).
  exists l, r. unfold trim. split_and!; try done.
  - by rewrite <- Er.
  - intros c Hc. apply Hh. rewrite Er.
    destruct (trimEnd (trimStart s)); [done|]. done.
Qed.

Lemma trim_whitespace s :
  Forall (λ c, isWhiteSpace c = true) s → trim s = [].
Proof.
  intros Hs. destruct (trim_spec s) as (l & r & E & _ & _ & Hh & _).
  destruct (trim s) as [|c t]; [done|].
  rewrite E in Hs. apply Forall_app in Hs as [_ Hs].
  apply Forall_app in Hs as [Hs _]. apply Forall_cons in Hs as [Hc _].
  rewrite (Hh c) in Hc; done.
Qed.

(** C9. The content is trimmed: what [limitContent] works on is the input
    without a leading and a trailing run of whitespace, and starts and ends
    with no whitespace.  Trimmed content of exactly 80 characters (and of
    any length up to 80) is rendered unchanged; longer trimmed content is
    rendered as its first 80 characters followed by ["..."]; content made of
    whitespace only, the empty string and [null] are rendered as the empty
    string. *)
Theorem limitContent_spec (content : DOMString) :
  ∃ l r,
    content = l ++ trim content ++ r
    ∧ Forall (λ c, isWhiteSpace c = true) l
    ∧ Forall (λ c, isWhiteSpace c = true) r
    ∧ (∀ c, head (trim content) = Some c → isWhiteSpace c = false)
    ∧ (∀ c, last (trim content) = Some c → isWhiteSpace c = false)
    ∧ (length (trim content) = 80 →
       limitContent (Some content) = trim content)
    ∧ (length (trim content) ≤ 80 →
       limitContent (Some content) = trim content)
    ∧ (80 < length (trim content) →
       limitContent (Some content) = take 80 (trim content) ++ js "...")
    ∧ (Forall (λ c, isWhiteSpace c = true) content →
       limitContent (Some content) = [])
    ∧ limitContent (Some []) = []
    ∧ limitContent None = [].
Proof.
  destruct (trim_spec content) as (l & r & E & Hl & Hr & Hh & Ht).
  exists l, r.
  assert (length (trim content) ≤ 80 →
          limitContent (Some content) = trim content) as Hle.
  { intros Hlen. unfold limitContent. destruct content as [|c s]; [done|].
    cbv zeta. by rewrite bool_decide_eq_false_2 by lia. }
  split_and!; try done.
  - intros Hlen. apply Hle. lia.
  - intros Hlen. unfold limitContent. destruct content as [|c s].
    + simpl in Hlen. lia.
    + cbv zeta. by rewrite bool_decide_eq_true_2 by lia.
  - intros Hws. rewrite Hle; rewrite (trim_whitespace _ Hws); [done|].
    simpl. lia.
Qed.

Lemma limitContent_spec_witness :
  limitContent (Some (js " " ++ replicate 81 120%N ++ js " "))
  = replicate 80 120%N ++ js "...".
Proof.
  destruct (limitContent_spec (js " " ++ replicate 81 120%N ++ js " "))
    as (l & r & _ & _ & _ & _ & _ & _ & _ & H & _).
  rewrite H; [reflexivity|]. vm_compute. lia.
Defined.

(** ** Loading a document *)

Lemma same_view_step st1 st2 ev :
  same_view st1 st2 → same_view (step st1 ev) (step st2 ev).
Proof.
  destruct st1 as [x1 g1 e1 m1], st2 as [x2 g2 e2 m2].
  intros (Hx & Hg & He & Hm). simpl in *. subst x2 g2 e2.
  destruct ev as [xmlDoc| | |path depth| |]; simpl.
  - unfold onload. case_bool_decide; repeat split; auto.
  - unfold click_expandAll. simpl. destruct x1; repeat split; auto.
  - unfold click_collapseAll. simpl. destruct x1; repeat split; auto.
  - unfold click_toggle. simpl. destruct x1; [|by repeat split; auto].
    destruct Hm as [ ? | -> ]; [done|]. repeat split; auto.
  - repeat split; auto.
  - repeat split; auto.
Qed.

Lemma same_view_run st1 st2 evs :
  same_view st1 st2 → same_view (run st1 evs) (run st2 evs).
Proof.
  revert st1 st2. induction evs as [|ev evs IH]; intros st1 st2 H; [done|].
  apply IH, same_view_step, H.
Qed.

Lemma same_view_observe st1 st2 :
  same_view st1 st2 → observe st1 = observe st2.
Proof.
  destruct st1 as [x1 g1 e1 m1], st2 as [x2 g2 e2 m2].
  intros (Hx & Hg & He & Hm). simpl in *. subst x2 g2 e2.
  unfold observe, render_error, render_tree. simpl.
  destruct x1; [|done]. by destruct Hm as [ ? | -> ].
Qed.

Lemma handleFile_other_type parse f st :
  file_type f ≠ js "text/xml" → handleFile parse (Some f) st = st.
Proof. intros H. unfold handleFile. by rewrite bool_decide_eq_true_2. Qed.

Lemma handleFile_xml parse f st :
  file_type f = js "text/xml" →
  handleFile parse (Some f) st = onload (parse (file_text f)) st.
Proof. intros H. unfold handleFile. by rewrite bool_decide_eq_false_2 by auto. Qed.

(** C7, as stated, fails: after a document was loaded, a failed parse
    leaves the collapse map of that document in the state. *)
Lemma failed_parse_keeps_collapsedMap :
  let st := onload scenario initialState in
  let st' := onload malformed st in
  ¬ (xmlElement st' = None
     ∧ collapsedMap st' = ∅
     ∧ render_error st' = Some (js "Not a valid XML")
     ∧ render_tree st' = None).
Proof.
  intros st st' (_ & H & _).
  apply (f_equal (λ m : CollapseMap, m !! js "0")) in H.
  vm_compute in H. discriminate H.
Qed.

(** C7, amended.  On a failed parse the previous document node is
    discarded, the message ["Not a valid XML"] is shown and no tree is
    displayed.  The stored collapse map is not cleared: it stays as it was.
    It has no effect from then on: whatever events follow, the page is the
    one that would be shown had the map been replaced by any other map, and
    the next successful load installs the default map of the new document
    alone. *)
Theorem failed_parse_clears_document (st : AppState) (xmlDoc : Element) :
  0 < length (getElementsByTagName xmlDoc (js "parsererror")) →
  let st' := onload xmlDoc st in
  xmlElement st' = None
  ∧ error st' = Some (js "Not a valid XML")
  ∧ render_error st' = Some (js "Not a valid XML")
  ∧ render_tree st' = None
  ∧ collapsedMap st' = collapsedMap st
  ∧ (∀ m evs, observe (run (setCollapsedMap m st') evs) = observe (run st' evs))
  ∧ (∀ root, getElementsByTagName root (js "parsererror") = [] →
       xmlElement (onload root st') = Some root
       ∧ collapsedMap (onload root st') = generateDefaultCollapsedMap root
       ∧ error (onload root st') = None).
Proof.
  intros Hfail st'. subst st'. unfold onload.
  rewrite bool_decide_eq_true_2 by done. split_and!; try done.
  - intros m evs. apply same_view_observe, same_view_run.
    repeat split; auto.
  - intros root ->. done.
Qed.

Lemma failed_parse_clears_document_witness :
  xmlElement (onload malformed (onload scenario initialState)) = None
  ∧ render_tree (onload malformed (onload scenario initialState)) = None
  ∧ collapsedMap (onload malformed (onload scenario initialState))
    = generateDefaultCollapsedMap scenario.
Proof.
  destruct (failed_parse_clears_document
              (onload scenario initialState) malformed)
    as (H1 & _ & _ & H2 & H3 & _).
  - vm_compute. lia.
  - split_and!; [exact H1 | exact H2 |]. rewrite H3. reflexivity.
Defined.

(** * Further properties of the code *)

(** ** Outcome of a load *)

Lemma getElementsByTagName_nonempty xmlDoc name :
  0 < length (getElementsByTagName xmlDoc name)
  ↔ ∃ p d n, (p, d, n) ∈ enumerate xmlDoc rootPath 0 ∧ nodeName n = name.
Proof.
  unfold getElementsByTagName. split.
  - intros Hlen.
    destruct (filter _ _) as [|el l] eqn:E; [simpl in Hlen; lia|].
    assert (el ∈ el :: l) as Hin by (apply elem_of_cons; by left).
    rewrite <- E in Hin. apply list_elem_of_filter in Hin as [Hname Hin].
    apply list_elem_of_fmap in Hin as ([[p d] n] & -> & Hin). by exists p, d, n.
  - intros (p & d & n & Hin & Hname).
    assert (n ∈ filter (λ el, nodeName el = name)
                  ((λ v, v.2) <$> enumerate xmlDoc rootPath 0)) as H.
    { apply list_elem_of_filter. split; [done|].
      apply list_elem_of_fmap. by exists (p, d, n). }
    destruct (filter _ _); [by apply elem_of_nil in H | simpl; lia].
Qed.

(** X1. A load is refused exactly when some element of the returned
    document, at any depth, is named [parsererror]: then the document is
    cleared and the message set.  Otherwise the root element is installed
    with its default collapse map and no error. *)
Theorem onload_outcome (xmlDoc : Element) (st : AppState) :
  ((∃ p d n, (p, d, n) ∈ enumerate xmlDoc rootPath 0
             ∧ nodeName n = js "parsererror") →
   xmlElement (onload xmlDoc st) = None
   ∧ error (onload xmlDoc st) = Some (js "Not a valid XML"))
  ∧ ((∀ p d n, (p, d, n) ∈ enumerate xmlDoc rootPath 0 →
               nodeName n ≠ js "parsererror") →
     xmlElement (onload xmlDoc st) = Some xmlDoc
     ∧ error (onload xmlDoc st) = None
     ∧ collapsedMap (onload xmlDoc st) = generateDefaultCollapsedMap xmlDoc).
Proof.
  split.
  - intros H%getElementsByTagName_nonempty. unfold onload.
    by rewrite bool_decide_eq_true_2.
  - intros H. unfold onload. rewrite bool_decide_eq_false_2; [done|].
    intros (p & d & n & Hin & Hname)%getElementsByTagName_nonempty.
    by apply (H p d n).
Qed.

Lemma onload_outcome_witness :
  xmlElement (onload nested_error (onload scenario initialState)) = None
  ∧ error (onload nested_error (onload scenario initialState))
    = Some (js "Not a valid XML").
Proof.
  apply (proj1 (onload_outcome nested_error (onload scenario initialState))).
  exists (js "0.0.0"), 2,
    (mkElement (js "parsererror") (Some (js "error on line 1")) []).
  split; [|reflexivity]. apply (list_elem_of_lookup_2 _ 2). reflexivity.
Defined.

(** ** Invariants of the reachable states *)

(** X2. In every reachable state the error message and a document are
    never present together, so the page never shows both; and the error is
    either absent or the one fixed message. *)
Theorem reachable_error_or_tree (st : AppState) :
  reachable st →
  (xmlElement st = None ∨ error st = None)
  ∧ (render_tree st = None ∨ render_error st = None)
  ∧ (error st = None ∨ error st = Some (js "Not a valid XML")).
Proof.
  assert (∀ st, (xmlElement st = None ∨ error st = None)
                ∧ (error st = None ∨ error st = Some (js "Not a valid XML")) →
     (xmlElement st = None ∨ error st = None)
     ∧ (render_tree st = None ∨ render_error st = None)
     ∧ (error st = None ∨ error st = Some (js "Not a valid XML"))) as Hpage.
  { intros [x g e m] ([Hx | He] & He'); simpl in *; subst;
      unfold render_tree, render_error; simpl; auto. }
  intros Hr. apply Hpage. induction Hr as
    [ | st xmlDoc _ IH | st _ IH | st _ IH | st root path depth node _ IH Hx _ _
      | st b _ IH ].
  - simpl. auto.
  - unfold onload. case_bool_decide; simpl; auto.
  - unfold click_expandAll. destruct (xmlElement st) eqn:E; simpl; [|by rewrite E].
    rewrite E. done.
  - unfold click_collapseAll. destruct (xmlElement st) eqn:E; simpl; [|by rewrite E].
    rewrite E. done.
  - unfold click_toggle. rewrite Hx. exact IH.
  - done.
Qed.

Lemma reachable_error_or_tree_witness :
  render_tree (onload malformed (onload scenario initialState)) = None
  ∨ render_error (onload malformed (onload scenario initialState)) = None.
Proof.
  apply (proj1 (proj2 (reachable_error_or_tree
                         (onload malformed (onload scenario initialState))
                         (reachable_onload _ malformed
                            (reachable_onload _ scenario reachable_initial))))).
Defined.

Lemma NoDup_fmap_elem_inj {A B} (f : A → B) (l : list A) x y :
  NoDup (f <$> l) → x ∈ l → y ∈ l → f x = f y → x = y.
Proof.
  intros Hnd [i Hi]%list_elem_of_lookup [j Hj]%list_elem_of_lookup Hf.
  assert (i = j) as ->.
  { apply (NoDup_lookup (f <$> l) i j (f x)); [done| |].
    - by rewrite list_lookup_fmap, Hi.
    - by rewrite list_lookup_fmap, Hj, Hf. }
  congruence.
Qed.

(** A path of the enumeration belongs to one node, at one depth. *)
Lemma enumerate_path_functional el path depth p d1 n1 d2 n2 :
  (p, d1, n1) ∈ enumerate el path depth →
  (p, d2, n2) ∈ enumerate el path depth → d1 = d2 ∧ n1 = n2.
Proof.
  intros H1 H2.
  pose proof (NoDup_fmap_elem_inj (λ v, v.1.1) _ _ _
                (enumerate_paths_NoDup el path depth) H1 H2 eq_refl) as E.
  by injection E.
Qed.

Lemma dom_generateDefaultCollapsedMap root :
  dom (generateDefaultCollapsedMap root)
  = list_to_set (paths (enumerate root rootPath 0)).
Proof.
  by rewrite generateDefaultCollapsedMap_writes, dom_writes, dom_empty_L,
    (right_id_L ∅ (∪)).
Qed.

Lemma dom_expandAll root :
  dom (expandAll root) = list_to_set (paths (enumerate root rootPath 0)).
Proof.
  by rewrite expandAll_writes, dom_writes, dom_empty_L, (right_id_L ∅ (∪)).
Qed.

Lemma dom_collapseAll root :
  dom (collapseAll root) = list_to_set (paths (enumerate root rootPath 0)).
Proof.
  by rewrite collapseAll_writes, dom_writes, dom_empty_L, (right_id_L ∅ (∪)).
Qed.

Lemma reachable_dom st root :
  reachable st → xmlElement st = Some root →
  dom (collapsedMap st) = list_to_set (paths (enumerate root rootPath 0)).
Proof.
  intros Hr. revert root. induction Hr as
    [ | st xmlDoc _ IH | st _ IH | st _ IH | st r path depth node _ IH Hx Hin _
      | st b _ IH ]; intros root.
  - done.
  - unfold onload. case_bool_decide; simpl; [done|].
    intros [= <-]. apply dom_generateDefaultCollapsedMap.
  - unfold click_expandAll. destruct (xmlElement st) as [r|] eqn:E; simpl.
    + rewrite E. intros [= <-]. apply dom_expandAll.
    + by rewrite E.
  - unfold click_collapseAll. destruct (xmlElement st) as [r|] eqn:E; simpl.
    + rewrite E. intros [= <-]. apply dom_collapseAll.
    + by rewrite E.
  - unfold click_toggle. rewrite Hx. simpl. rewrite Hx. intros [= <-].
    unfold toggle. rewrite dom_insert_L, (IH r Hx).
    apply subseteq_union_1_L, singleton_subseteq_l, elem_of_list_to_set.
    apply list_elem_of_fmap. by exists (path, depth, node).
  - apply IH.
Qed.

(** X3. While a document is loaded, the collapse map has an entry for
    exactly the paths of the elements of that document, whatever loads,
    bulk updates and header clicks led to the state.  The state of every
    element is therefore read from its entry: the depth default of the
    lookup is never what decides it. *)
Theorem reachable_map_complete (st : AppState) (root : Element) :
  reachable st → xmlElement st = Some root →
  dom (collapsedMap st) = list_to_set (paths (enumerate root rootPath 0))
  ∧ (∀ p d n, (p, d, n) ∈ enumerate root rootPath 0 →
       ∃ b, collapsedMap st !! p = Some b
            ∧ ∀ depth, isCollapsed (collapsedMap st) p depth = b).
Proof.
  intros Hr Hx. pose proof (reachable_dom st root Hr Hx) as Hdom.
  split; [done|]. intros p d n Hin.
  assert (p ∈ dom (collapsedMap st)) as [b Hb]%elem_of_dom.
  { rewrite Hdom. apply elem_of_list_to_set, list_elem_of_fmap.
    by exists (p, d, n). }
  exists b. split; [done|]. intros depth. unfold isCollapsed. by rewrite Hb.
Qed.

Lemma reachable_map_complete_witness :
  ∃ b, collapsedMap (click_toggle (js "0.1") 1 (onload scenario initialState))
         !! js "0.1.0" = Some b
       ∧ ∀ depth,
           isCollapsed
             (collapsedMap
                (click_toggle (js "0.1") 1 (onload scenario initialState)))
             (js "0.1.0") depth = b.
Proof.
  assert (reachable (click_toggle (js "0.1") 1 (onload scenario initialState)))
    as Hr.
  { apply (reachable_toggle _ scenario (js "0.1") 1
             (mkElement (js "b") (Some (js "2"))
                [mkElement (js "c") (Some (js "2")) []])).
    - apply reachable_onload, reachable_initial.
    - reflexivity.
    - apply (list_elem_of_lookup_2 _ 2). reflexivity.
    - reflexivity. }
  apply (proj2 (reachable_map_complete _ scenario Hr eq_refl)
           (js "0.1.0") 2 (mkElement (js "c") (Some (js "2")) [])).
  apply (list_elem_of_lookup_2 _ 3). reflexivity.
Defined.

(** ** What the page shows *)

Lemma labels_XmlTree name path collapsed kids :
  labels (XmlTree name path collapsed kids) = name :: labels_all kids.
Proof. reflexivity. Qed.

Lemma labels_XmlViewer node depth path m :
  labels (XmlViewer node depth path m)
  = label node
    :: (if isCollapsed m path depth then []
        else labels_all (XmlViewer_children (children node) depth path m 0)).
Proof.
  rewrite XmlViewer_unfold. destruct node as [n t [|c cs]].
  - simpl. by destruct (isCollapsed m path depth).
  - cbn [children nodeName]. rewrite labels_XmlTree.
    by destruct (isCollapsed m path depth).
Qed.

(** The rendering reads the map only through the resolved state of the
    enumerated paths, each at its own depth. *)
Lemma XmlViewer_ext node depth path m1 m2 :
  (∀ q d n, (q, d, n) ∈ enumerate node path depth →
            isCollapsed m1 q d = isCollapsed m2 q d) →
  XmlViewer node depth path m1 = XmlViewer node depth path m2.
Proof.
  revert depth path. induction node as [nm t cs IH] using Element_ind.
  intros depth path Hagree. rewrite !XmlViewer_unfold. simpl.
  rewrite <- (Hagree path depth (mkElement nm t cs)) by apply enumerate_head.
  assert (∀ i, (∀ v, v ∈ enumerate_children cs path depth i →
                     isCollapsed m1 v.1.1 v.1.2 = isCollapsed m2 v.1.1 v.1.2) →
               XmlViewer_children cs depth path m1 i
               = XmlViewer_children cs depth path m2 i) as Hkids.
  { clear Hagree. induction IH as [|c cs Hc _ IHcs]; intros i Hagree; [done|].
    simpl. f_equal.
    - apply Hc. intros q d n Hin.
      apply (Hagree (q, d, n)). simpl. apply elem_of_app. by left.
    - apply IHcs. intros v Hin. apply Hagree. simpl. apply elem_of_app.
      by right. }
  destruct cs as [|c cs]; [done|].
  destruct (isCollapsed m1 path depth); [done|]. f_equal. apply Hkids.
  intros [[q d] n] Hin. apply (Hagree q d n). rewrite enumerate_unfold.
  apply elem_of_cons. by right.
Qed.

Lemma labels_all_expanded node depth path m :
  (∀ q d n, (q, d, n) ∈ enumerate node path depth → isCollapsed m q d = false) →
  labels (XmlViewer node depth path m)
  = (λ v, label v.2) <$> enumerate node path depth.
Proof.
  revert depth path. induction node as [nm t cs IH] using Element_ind.
  intros depth path Hexp. rewrite labels_XmlViewer, enumerate_unfold.
  rewrite (Hexp path depth (mkElement nm t cs)) by apply enumerate_head.
  rewrite fmap_cons. simpl. f_equal.
  assert (∀ v, v ∈ enumerate_children cs path depth 0 →
               isCollapsed m v.1.1 v.1.2 = false) as Hkids.
  { intros [[q d] n] Hin. apply (Hexp q d n). rewrite enumerate_unfold.
    apply elem_of_cons. by right. }
  clear Hexp. revert Hkids. generalize 0.
  induction IH as [|c cs Hc _ IHcs]; intros i Hkids; simpl; [done|].
  rewrite fmap_app. f_equal.
  - apply Hc. intros q d n Hin. apply (Hkids (q, d, n)). simpl.
    apply elem_of_app. by left.
  - apply IHcs. intros v Hin. apply Hkids. simpl. apply elem_of_app. by right.
Qed.

Lemma expandAll_lookup root p d n :
  (p, d, n) ∈ enumerate root rootPath 0 → expandAll root !! p = Some false.
Proof.
  intros Hin. rewrite expandAll_writes.
  apply (writes_lookup_in (λ _, false) _ _ p d n);
    [apply enumerate_paths_NoDup | done].
Qed.

Lemma collapseAll_lookup root p d n :
  (p, d, n) ∈ enumerate root rootPath 0 → collapseAll root !! p = Some true.
Proof.
  intros Hin. rewrite collapseAll_writes.
  apply (writes_lookup_in (λ _, true) _ _ p d n);
    [apply enumerate_paths_NoDup | done].
Qed.

Lemma generateDefaultCollapsedMap_lookup root p d n :
  (p, d, n) ∈ enumerate root rootPath 0 →
  generateDefaultCollapsedMap root !! p = Some (bool_decide (0 < d)).
Proof.
  intros Hin. rewrite generateDefaultCollapsedMap_writes.
  apply (writes_lookup_in (λ d, bool_decide (0 < d)) _ _ p d n);
    [apply enumerate_paths_NoDup | done].
Qed.

(** X4. After "Expand all" the page shows every element of the document:
    the displayed tag names are those of all elements, in document order. *)
Theorem expandAll_shows_every_element (st : AppState) (root : Element) :
  xmlElement st = Some root →
  ∃ v, render_tree (click_expandAll st) = Some v
       ∧ labels v = (λ e, label e.2) <$> enumerate root rootPath 0
       ∧ length (labels v) = length (enumerate root rootPath 0).
Proof.
  intros Hx. unfold click_expandAll, render_tree. rewrite Hx. simpl.
  rewrite Hx. eexists. split; [done|].
  assert (labels (XmlViewer root 0 rootPath (expandAll root))
          = (λ e, label e.2) <$> enumerate root rootPath 0) as E.
  { apply labels_all_expanded. intros q d n Hin. unfold isCollapsed.
    by rewrite (expandAll_lookup root q d n). }
  split; [done|]. by rewrite E, length_fmap.
Qed.

Lemma expandAll_shows_every_element_witness :
  ∃ v, render_tree (click_expandAll (onload scenario initialState)) = Some v
       ∧ labels v = [Some (js "root"); Some (js "a"); Some (js "b");
                     Some (js "c")].
Proof.
  destruct (expandAll_shows_every_element
              (onload scenario initialState) scenario eq_refl)
    as (v & Hv & Hl & _).
  exists v. split; [exact Hv|]. rewrite Hl. reflexivity.
Defined.

(** X5. After "Collapse all" the page shows the root alone: its header,
    collapsed and without children, or its leaf line when the root has no
    children. *)
Theorem collapseAll_shows_root_only (st : AppState) (root : Element) :
  xmlElement st = Some root →
  render_tree (click_collapseAll st)
  = Some (if isLeaf root
          then XmlLeaf (label root) (limitContent (textContent root))
          else XmlTree (label root) rootPath true []).
Proof.
  intros Hx. unfold click_collapseAll, render_tree. rewrite Hx. simpl.
  rewrite Hx. f_equal. rewrite XmlViewer_unfold. unfold isLeaf, isCollapsed.
  rewrite (collapseAll_lookup root rootPath 0 root) by apply enumerate_head.
  by destruct (children root).
Qed.

Lemma collapseAll_shows_root_only_witness :
  render_tree (click_collapseAll (onload scenario initialState))
  = Some (XmlTree (Some (js "root")) (js "0") true []).
Proof.
  apply (collapseAll_shows_root_only (onload scenario initialState) scenario).
  reflexivity.
Defined.

Lemma labels_children_collapsed cs depth path m i :
  (∀ k c, cs !! k = Some c →
          isCollapsed m (childPath path (i + k)) (S depth) = true) →
  labels_all (XmlViewer_children cs depth path m i) = label <$> cs.
Proof.
  revert i. induction cs as [|c cs IH]; intros i Hc; [done|]. simpl.
  rewrite labels_XmlViewer.
  rewrite <- (Nat.add_0_r i) at 1. rewrite (Hc 0 c) by done. simpl. f_equal.
  apply IH. intros k c' Hk. rewrite Nat.add_succ_l, <- Nat.add_succ_r.
  by apply (Hc (S k) c').
Qed.

(** X6. After a successful load the page shows the root and its children
    and nothing below them: the displayed tag names are the root's followed
    by those of its children, in order.  Each child that has children of its
    own is shown as a collapsed header. *)
Theorem load_shows_first_level (st : AppState) (root : Element) :
  getElementsByTagName root (js "parsererror") = [] →
  ∃ v, render_tree (onload root st) = Some v
       ∧ labels v = label root :: (label <$> children root)
       ∧ (∀ k c, children root !! k = Some c → isLeaf c = false →
            XmlViewer c 1 (childPath rootPath k) (collapsedMap (onload root st))
            = XmlTree (label c) (childPath rootPath k) true []).
Proof.
  intros Hok. unfold onload, render_tree. rewrite Hok. simpl.
  assert (∀ k c, children root !! k = Some c →
                 generateDefaultCollapsedMap root !! childPath rootPath k
                 = Some true) as Hkid.
  { intros k c Hk.
    apply (generateDefaultCollapsedMap_lookup root _ 1 c).
    apply (enumerate_child_closed _ _ _ _ _ root); [apply enumerate_head|done]. }
  eexists. split_and!; [done| |].
  - rewrite labels_XmlViewer. unfold isCollapsed at 1.
    rewrite (generateDefaultCollapsedMap_lookup root rootPath 0 root)
      by apply enumerate_head.
    simpl. f_equal. apply labels_children_collapsed.
    intros k c Hk. change (0 + k) with k. unfold isCollapsed.
    by rewrite (Hkid k c).
  - intros k c Hk Hleaf. rewrite XmlViewer_unfold. unfold isCollapsed.
    rewrite (Hkid k c) by done. unfold isLeaf in Hleaf.
    by destruct (children c).
Qed.

Lemma load_shows_first_level_witness :
  ∃ v, render_tree (onload scenario initialState) = Some v
       ∧ labels v = [Some (js "root"); Some (js "a"); Some (js "b")].
Proof.
  destruct (load_shows_first_level initialState scenario eq_refl)
    as (v & Hv & Hl & _).
  exists v. split; [exact Hv|]. rewrite Hl. reflexivity.
Defined.

(** ** Clicking a header *)

(** X7. A click on the header rendered at [path] and [depth] negates the
    resolved state of [path], whether it came from an entry or from the
    depth default, and leaves the resolved state of every other path as it
    was; it changes neither the document nor the error. *)
Theorem click_toggle_flips_one (st : AppState) (root : Element)
    (path : list N) (depth : nat) :
  xmlElement st = Some root →
  let st' := click_toggle path depth st in
  (∀ d, isCollapsed (collapsedMap st') path d
        = negb (isCollapsed (collapsedMap st) path depth))
  ∧ (∀ q d, q ≠ path →
       isCollapsed (collapsedMap st') q d = isCollapsed (collapsedMap st) q d)
  ∧ xmlElement st' = Some root
  ∧ error st' = error st.
Proof.
  intros Hx st'. subst st'. unfold click_toggle. rewrite Hx. simpl.
  unfold toggle. split_and!; try done.
  - intros d. unfold isCollapsed at 1. by rewrite lookup_insert_eq.
  - intros q d Hq. unfold isCollapsed at 1 3. by rewrite lookup_insert_ne.
Qed.

Lemma click_toggle_flips_one_witness :
  isCollapsed
    (collapsedMap (click_toggle (js "0.1") 1 (onload scenario initialState)))
    (js "0.1") 1 = false.
Proof.
  apply (proj1 (click_toggle_flips_one (onload scenario initialState) scenario
                  (js "0.1") 1 eq_refl) 1).
Defined.

(** X8. Clicking the header of an element of the loaded document twice
    restores the page: the rendered tree is the one shown before the two
    clicks. *)
Theorem click_twice_restores_page (st : AppState) (root : Element)
    (path : list N) (depth : nat) (node : Element) :
  xmlElement st = Some root →
  (path, depth, node) ∈ enumerate root rootPath 0 →
  render_tree (click_toggle path depth (click_toggle path depth st))
  = render_tree st.
Proof.
  intros Hx Hin. unfold click_toggle. rewrite Hx. simpl. rewrite Hx.
  unfold render_tree. simpl. rewrite Hx. f_equal.
  apply XmlViewer_ext. intros q d n Hq. unfold toggle.
  destruct (decide (q = path)) as [-> | Hne].
  - destruct (enumerate_path_functional _ _ _ _ _ _ _ _ Hq Hin) as [-> _].
    unfold isCollapsed at 1 2. rewrite !lookup_insert_eq.
    apply negb_involutive.
  - unfold isCollapsed at 1 4. by rewrite !lookup_insert_ne.
Qed.

Lemma click_twice_restores_page_witness :
  render_tree (click_toggle (js "0.1") 1
                 (click_toggle (js "0.1") 1 (onload scenario initialState)))
  = render_tree (onload scenario initialState).
Proof.
  apply (click_twice_restores_page (onload scenario initialState) scenario
           (js "0.1") 1
           (mkElement (js "b") (Some (js "2"))
              [mkElement (js "c") (Some (js "2")) []]) eq_refl).
  apply (list_elem_of_lookup_2 _ 2). reflexivity.
Defined.

(** ** Relations between the maps *)

Lemma enumerate_tail_positive el path d p n :
  (p, d, n) ∈ enumerate el path 0 → p ≠ path → 0 < d.
Proof.
  intros Hin Hne.
  destruct (enumerate_parent _ _ _ _ _ _ Hin)
    as [E | (q & d' & m & i & _ & _ & _ & ->)]; [congruence | lia].
Qed.

Lemma default_is_collapseAll_root_expanded root :
  generateDefaultCollapsedMap root = <[rootPath := false]> (collapseAll root).
Proof.
  apply map_eq. intros p. destruct (decide (p = rootPath)) as [-> | Hne].
  - rewrite lookup_insert_eq.
    apply (generateDefaultCollapsedMap_lookup root rootPath 0 root),
      enumerate_head.
  - rewrite lookup_insert_ne by done.
    destruct (decide (p ∈ paths (enumerate root rootPath 0))) as [Hin | Hout].
    + apply list_elem_of_fmap in Hin as ([[q d] n] & -> & Hin). simpl in *.
      rewrite (generateDefaultCollapsedMap_lookup root q d n) by done.
      rewrite (collapseAll_lookup root q d n) by done.
      rewrite bool_decide_eq_true_2; [done|].
      by apply (enumerate_tail_positive root rootPath d q n).
    + rewrite generateDefaultCollapsedMap_writes, collapseAll_writes.
      by rewrite !writes_lookup_notin.
Qed.

(** X9. The map installed at load time is the "Collapse all" map with the
    root expanded: pressing "Collapse all" and then clicking the root header
    brings the collapse map back to the one the document was loaded with. *)
Theorem collapseAll_then_root_click_is_default (st : AppState)
    (root : Element) :
  xmlElement st = Some root →
  generateDefaultCollapsedMap root = <[rootPath := false]> (collapseAll root)
  ∧ collapsedMap (click_toggle rootPath 0 (click_collapseAll st))
    = generateDefaultCollapsedMap root.
Proof.
  intros Hx. split; [apply default_is_collapseAll_root_expanded|].
  unfold click_collapseAll, click_toggle. rewrite Hx. simpl. rewrite Hx. simpl.
  unfold toggle, isCollapsed.
  rewrite (collapseAll_lookup root rootPath 0 root) by apply enumerate_head.
  symmetry. apply default_is_collapseAll_root_expanded.
Qed.

Lemma collapseAll_then_root_click_is_default_witness :
  collapsedMap (click_toggle rootPath 0
                  (click_collapseAll (onload scenario initialState)))
  = generateDefaultCollapsedMap scenario.
Proof.
  apply (proj2 (collapseAll_then_root_click_is_default
                  (onload scenario initialState) scenario eq_refl)).
Defined.

(** X10. Each of the three maps holds exactly one entry per element of
    the document. *)
Theorem builders_one_entry_per_element (root : Element) :
  size (generateDefaultCollapsedMap root) = length (enumerate root rootPath 0)
  ∧ size (expandAll root) = length (enumerate root rootPath 0)
  ∧ size (collapseAll root) = length (enumerate root rootPath 0).
Proof.
  assert (size (list_to_set (paths (enumerate root rootPath 0)) : gset (list N))
          = length (enumerate root rootPath 0)) as E.
  { rewrite size_list_to_set by apply enumerate_paths_NoDup.
    unfold paths. by rewrite length_fmap. }
  rewrite <- !(size_dom (D := gset (list N))).
  by rewrite dom_generateDefaultCollapsedMap, dom_expandAll, dom_collapseAll.
Qed.

(** ** Depth and path *)

Lemma delimiters_app p q : delimiters (p ++ q) = delimiters p + delimiters q.
Proof. unfold delimiters. by rewrite filter_app, length_app. Qed.

Lemma delimiters_digits s :
  Forall (λ c, isDigit c = true) s → delimiters s = 0.
Proof.
  unfold delimiters. induction 1 as [|c s Hc _ IH]; [done|].
  rewrite filter_cons_False; [done|]. intros ->. done.
Qed.

Lemma delimiters_childPath p i : delimiters (childPath p i) = S (delimiters p).
Proof.
  unfold childPath. rewrite !delimiters_app.
  rewrite (delimiters_digits (toString i)) by apply toString_isDigit.
  change (delimiters (js ".")) with 1. lia.
Qed.

Lemma enumerate_delimiters el path depth v :
  v ∈ enumerate el path depth →
  delimiters v.1.1 + depth = delimiters path + v.1.2.
Proof.
  revert path depth. induction el as [n t cs IH] using Element_ind.
  intros path depth. rewrite enumerate_unfold. simpl.
  intros [-> | H]%elem_of_cons; [simpl; lia|].
  apply elem_of_enumerate_children in H as (k & c & Hk & H).
  rewrite Forall_lookup in IH. apply (IH k c Hk) in H.
  rewrite delimiters_childPath in H. lia.
Qed.

(** X11. The depth an element is visited and rendered at is the number of
    delimiters in its path: the depth that decides the default state can be
    read off the path. *)
Theorem depth_is_delimiter_count (root : Element) p d n :
  (p, d, n) ∈ enumerate root rootPath 0 → delimiters p = d.
Proof.
  intros H%enumerate_delimiters. simpl in H.
  change (delimiters rootPath) with 0 in H. lia.
Qed.

Lemma depth_is_delimiter_count_witness : delimiters (js "0.1.0") = 2.
Proof.
  apply (depth_is_delimiter_count scenario (js "0.1.0") 2
           (mkElement (js "c") (Some (js "2")) [])).
  apply (list_elem_of_lookup_2 _ 3). reflexivity.
Defined.

(** ** The limited content *)

Lemma trimStart_id s :
  (∀ c, head s = Some c → isWhiteSpace c = false) → trimStart s = s.
Proof. destruct s as [|c s]; [done|]. intros H. simpl. by rewrite (H c). Qed.

Lemma trimEnd_id s :
  (∀ c, last s = Some c → isWhiteSpace c = false) → trimEnd s = s.
Proof.
  intros H. unfold trimEnd. rewrite trimStart_id; [apply reverse_involutive|].
  intros c. rewrite head_reverse. apply H.
Qed.

Lemma trim_id s :
  (∀ c, head s = Some c → isWhiteSpace c = false) →
  (∀ c, last s = Some c → isWhiteSpace c = false) → trim s = s.
Proof. intros Hh Hl. unfold trim. rewrite (trimStart_id s Hh). by apply trimEnd_id. Qed.

Lemma last_snoc_dots (s : DOMString) : last (s ++ js "...") = Some 46%N.
Proof. change (js "...") with ([46; 46]%N ++ [46%N]). by rewrite app_assoc, last_snoc. Qed.

(** The two shapes of a result of [limitContent]. *)
Lemma limitContent_cases content :
  (limitContent content = [] ∨ ∃ s, content = Some s ∧ trim s ≠ [] ∧
     length (trim s) ≤ 80 ∧ limitContent content = trim s)
  ∨ (∃ s, content = Some s ∧ 80 < length (trim s)
          ∧ limitContent content = take 80 (trim s) ++ js "...").
Proof.
  destruct content as [[|c s]|]; [by left; left| |by left; left].
  unfold limitContent. cbv zeta. case_bool_decide as Hlen.
  - right. by exists (c :: s).
  - left. destruct (trim (c :: s)) as [|x t] eqn:E; [by left|].
    right. exists (c :: s). rewrite E. split_and!; try done. lia.
Qed.

Lemma limitContent_trimmed content :
  (∀ c, head (limitContent content) = Some c → isWhiteSpace c = false)
  ∧ (∀ c, last (limitContent content) = Some c → isWhiteSpace c = false).
Proof.
  destruct (limitContent_cases content)
    as [[-> | (s & _ & _ & _ & ->)] | (s & _ & Hlen & ->)]; [done| |].
  - destruct (trim_spec s) as (_ & _ & _ & _ & _ & Hh & Hl). done.
  - destruct (trim_spec s) as (_ & _ & _ & _ & _ & Hh & _). split.
    + intros c. destruct (trim s) as [|x t]; [simpl in Hlen; lia|]. apply Hh.
    + intros c. rewrite (last_snoc_dots (take 80 (trim s))).
      by intros [= <-].
Qed.

(** X12. Whatever the content, the rendered text is at most 83 characters
    long (80 of the content and the three dots) and neither starts nor ends
    with a whitespace character. *)
Theorem limitContent_bounded_and_trimmed (content : option DOMString) :
  length (limitContent content) ≤ 83
  ∧ (∀ c, head (limitContent content) = Some c → isWhiteSpace c = false)
  ∧ (∀ c, last (limitContent content) = Some c → isWhiteSpace c = false).
Proof.
  split; [|apply limitContent_trimmed].
  destruct (limitContent_cases content)
    as [[-> | (s & _ & _ & Hlen & ->)] | (s & _ & Hlen & ->)].
  - simpl. lia.
  - lia.
  - rewrite length_app, length_take. change (length (js "...")) with 3. lia.
Qed.

Lemma limitContent_bounded_and_trimmed_witness :
  isWhiteSpace 120%N = false.
Proof.
  apply (proj1 (proj2 (limitContent_bounded_and_trimmed
                         (Some (js " " ++ replicate 81 120%N ++ js " "))))).
  reflexivity.
Defined.

(** X13. Limiting is idempotent: text that went through [limitContent]
    comes out of it unchanged, so a truncated text does not collect a second
    ellipsis. *)
Theorem limitContent_idempotent (content : option DOMString) :
  limitContent (Some (limitContent content)) = limitContent content.
Proof.
  destruct (limitContent_trimmed content) as [Hh Hl].
  pose proof (trim_id _ Hh Hl) as Hid.
  destruct (limitContent_cases content)
    as [[E | (s & _ & Hne & Hlen & E)] | (s & _ & Hlen & E)].
  - by rewrite E.
  - rewrite E in *. unfold limitContent at 1.
    destruct (trim s) as [|x t] eqn:Et; [done|]. cbv zeta. rewrite Hid.
    by rewrite bool_decide_eq_false_2 by lia.
  - rewrite E in *. unfold limitContent at 1.
    destruct (take 80 (trim s) ++ js "...") as [|x t] eqn:Et.
    { by destruct (take 80 (trim s)). }
    cbv zeta. rewrite Hid. rewrite <- Et.
    rewrite bool_decide_eq_true_2
      by (rewrite length_app, length_take; change (length (js "...")) with 3;
          lia).
    unfold slice0. by rewrite take_app_length' by (rewrite length_take; lia).
Qed.

(** ** The displayed name *)

Lemma includes_before_first s sep : includes (before_first s sep) sep = false.
Proof.
  induction s as [|c s IH]; [done|]. simpl.
  destruct (c =? sep)%N eqn:E; [done|]. simpl.
  by rewrite (N.eqb_sym sep c), E.
Qed.

(** X14. [stripNamespace] always yields a string, never [undefined]; the
    displayed name contains no [':'], and stripping it again changes
    nothing. *)
Theorem stripNamespace_colon_free (tagName : DOMString) :
  ∃ name, stripNamespace tagName = Some name
          ∧ includes name 58%N = false
          ∧ stripNamespace name = Some name.
Proof.
  assert (∀ name, includes name 58%N = false → stripNamespace name = Some name)
    as Hfix.
  { intros name H. unfold stripNamespace. by rewrite H. }
  unfold stripNamespace at 1. rewrite split_second.
  destruct (includes tagName 58%N) eqn:E.
  - eexists. split_and!; [done| |]; [|apply Hfix]; apply includes_before_first.
  - exists tagName. split_and!; [done..|by apply Hfix].
Qed.

(** ** Choosing a file *)

(** X15. Of the files of a drop or of the file input only the first is
    looked at.  When there is none, or when its type is not exactly
    ["text/xml"], nothing happens: no message is set, the document and the
    collapse map stay, and a drop just ends the drag highlight.  When its
    type is ["text/xml"], the outcome is that of loading the parsed text of
    that file. *)
Theorem first_file_decides (parse : DOMString → Element)
    (files : list File) (st : AppState) :
  ((∀ f, head files = Some f → file_type f ≠ js "text/xml") →
   handleFileChange parse files st = st
   ∧ handleDrop parse files st = setIsDragging false st)
  ∧ (∀ f, head files = Some f → file_type f = js "text/xml" →
       handleFileChange parse files st = onload (parse (file_text f)) st
       ∧ handleDrop parse files st
         = onload (parse (file_text f)) (setIsDragging false st)).
Proof.
  unfold handleFileChange, handleDrop. split.
  - intros H. destruct (head files) as [f|]; [|done].
    by rewrite !handleFile_other_type by by apply H.
  - intros f -> Hf. by rewrite !handleFile_xml.
Qed.

Lemma first_file_decides_witness :
  handleDrop (λ _, scenario)
    [mkFile (js "application/xml") (js "<root/>");
     mkFile (js "text/xml") (js "<root/>")]
    (handleDragEnter initialState)
  = initialState.
Proof.
  apply (proj2 (proj1 (first_file_decides (λ _, scenario)
           [mkFile (js "application/xml") (js "<root/>");
            mkFile (js "text/xml") (js "<root/>")]
           (handleDragEnter initialState)) ltac:(by intros f [= <-]))).
Defined.

(** ** The two versions of the load handler *)

(** X16. The load handler of the first version of the viewer and the
    current one agree on the outcome: after the same parsed document they
    hold the same document and the same error, whatever the states they
    started from; neither touches the drag flag. *)
Theorem legacy_onload_agrees (xmlDoc : Element) (old : LegacyState)
    (st : AppState) :
  legacy_xmlElement (legacy_onload xmlDoc old) = xmlElement (onload xmlDoc st)
  ∧ legacy_error (legacy_onload xmlDoc old) = error (onload xmlDoc st)
  ∧ legacy_isDragging (legacy_onload xmlDoc old) = legacy_isDragging old
  ∧ isDragging (onload xmlDoc st) = isDragging st.
Proof. unfold legacy_onload, onload. by case_bool_decide. Qed.

(** ** Headers of the page *)

(** X17. On every page the headers carry pairwise distinct paths, each
    the path of an element of the loaded document: a click reaches the entry
    of one rendered element only. *)
Theorem rendered_headers_distinct (st : AppState) (v : VNode) :
  render_tree st = Some v →
  NoDup (header_paths v)
  ∧ ∃ root, xmlElement st = Some root
            ∧ ∀ p, p ∈ header_paths v → p ∈ paths (enumerate root rootPath 0).
Proof.
  unfold render_tree. destruct (xmlElement st) as [root|]; [|done].
  intros [= <-]. split; [apply XmlViewer_header_paths_NoDup|].
  exists root. split; [done|]. intros p Hp.
  eapply elem_of_sublist; [exact Hp | apply XmlViewer_header_paths_sublist].
Qed.

Lemma rendered_headers_distinct_witness :
  NoDup [js "0"; js "0.1"].
Proof.
  apply (proj1 (rendered_headers_distinct
                  (click_toggle (js "0.1") 1 (onload scenario initialState))
                  (XmlTree (Some (js "root")) (js "0") false
                     [ XmlLeaf (Some (js "a")) (js "1");
                       XmlTree (Some (js "b")) (js "0.1") false
                         [ XmlLeaf (Some (js "c")) (js "2") ] ])
                  scenario_click_b)).
Defined.

Lemma labels_sublist node depth path m :
  labels (XmlViewer node depth path m)
    `sublist_of` (λ v, label v.2) <$> enumerate node path depth.
Proof.
  revert depth path. induction node as [nm t cs IH] using Element_ind.
  intros depth path. rewrite labels_XmlViewer, enumerate_unfold, fmap_cons.
  apply sublist_skip. destruct (isCollapsed m path depth);
    [apply sublist_nil_l|]. simpl children. generalize 0.
  induction IH as [|c cs Hc _ IHcs]; intros i; simpl; [done|].
  rewrite fmap_app. apply sublist_app; [apply Hc | apply IHcs].
Qed.

(** X18. Whatever the collapse map, the page shows the root first and then
    only elements of the loaded document, each at most once and in document
    order: the displayed names form a subsequence of the names of all
    elements. *)
Theorem page_is_subsequence_of_document (st : AppState) (v : VNode) :
  render_tree st = Some v →
  ∃ root, xmlElement st = Some root
          ∧ head (labels v) = Some (label root)
          ∧ labels v `sublist_of` (λ e, label e.2) <$> enumerate root rootPath 0
          ∧ length (labels v) ≤ length (enumerate root rootPath 0).
Proof.
  unfold render_tree. destruct (xmlElement st) as [root|]; [|done].
  intros [= <-]. exists root.
  pose proof (labels_sublist root 0 rootPath (collapsedMap st)) as Hsub.
  split_and!; [done| |done|].
  - by rewrite labels_XmlViewer.
  - apply sublist_length in Hsub. by rewrite length_fmap in Hsub.
Qed.

Lemma page_is_subsequence_of_document_witness :
  ∃ root, xmlElement (onload scenario initialState) = Some root
          ∧ head [Some (js "root"); Some (js "a"); Some (js "b")]
            = Some (label root).
Proof.
  destruct (page_is_subsequence_of_document (onload scenario initialState)
              (XmlTree (Some (js "root")) (js "0") false
                 [ XmlLeaf (Some (js "a")) (js "1");
                   XmlTree (Some (js "b")) (js "0.1") true [] ])
              scenario_loaded)
    as (root & Hx & Hh & _).
  exists root. split; [exact Hx | exact Hh].
Defined.

(** ** Shape of the keys *)

Lemma enumerate_path_chars el path depth v :
  v ∈ enumerate el path depth →
  ∃ s, v.1.1 = path ++ s ∧ Forall (λ c, isDigit c = true ∨ c = 46%N) s.
Proof.
  revert path depth. induction el as [n t cs IH] using Element_ind.
  intros path depth. rewrite enumerate_unfold. simpl.
  intros [-> | H]%elem_of_cons.
  - exists []. by rewrite app_nil_r.
  - apply elem_of_enumerate_children in H as (k & c & Hk & H).
    rewrite Forall_lookup in IH.
    destruct (IH k c Hk _ _ H) as (s & -> & Hs).
    exists (js "." ++ toString k ++ s). split.
    + unfold childPath. by rewrite <- !app_assoc.
    + apply Forall_app. split; [by repeat constructor; right|].
      apply Forall_app. split; [|done].
      eapply Forall_impl; [apply toString_isDigit|]. by left.
Qed.

(** X19. Every key the traversals write and the renderer reads starts
    with the root token ['0'] and consists of decimal digits and
    delimiters only. *)
Theorem paths_are_digits_and_dots (root : Element) p d n :
  (p, d, n) ∈ enumerate root rootPath 0 →
  head p = Some 48%N ∧ Forall (λ c, isDigit c = true ∨ c = 46%N) p.
Proof.
  intros (s & E & Hs)%enumerate_path_chars. cbn [fst] in E. subst p.
  change rootPath with [48%N]. split; [done|].
  constructor; [by left | done].
Qed.

Lemma paths_are_digits_and_dots_witness :
  head (js "0.1.0") = Some 48%N.
Proof.
  assert ((js "0.1.0", 2, mkElement (js "c") (Some (js "2")) [])
            ∈ enumerate scenario rootPath 0) as Hin.
  { apply (list_elem_of_lookup_2 _ 3). reflexivity. }
  apply (proj1 (paths_are_digits_and_dots scenario (js "0.1.0") 2
                  (mkElement (js "c") (Some (js "2")) []) Hin)).
Defined.

(** X20. The path of a child determines both the path of its parent and
    its index: two template literals [`${path}.${i}`] are equal only for
    equal paths and equal indices. *)
Theorem childPath_inj (p q : list N) (i j : nat) :
  childPath p i = childPath q j → p = q ∧ i = j.
Proof.
  unfold childPath. intros E. apply (f_equal reverse) in E.
  rewrite !reverse_app in E. rewrite <- !app_assoc in E.
  apply digits_split in E as [Ei Ep].
  - apply (inj reverse) in Ei. apply toString_inj in Ei.
    simpl in Ep. injection Ep as Ep. apply (inj reverse) in Ep. done.
  - apply Forall_reverse, toString_isDigit.
  - apply Forall_reverse, toString_isDigit.
  - done.
  - done.
Qed.

Lemma childPath_inj_witness : js "0.1" = js "0.1" ∧ 12 = 12.
Proof. apply (childPath_inj (js "0.1") (js "0.1") 12 12). reflexivity. Defined.
